(** * Availability and reservation core of the stylist booking bot (bot.py)

    A shallow embedding of the interval merge, the free-slot computation, the
    collision-checked event creation and the two dialogue steps that call
    them, followed by the properties proved about them.

    Modelling conventions.
    - A [datetime] is an integer number of microseconds on the local time
      line of the business time zone, counted from midnight of day 0.  The
      zone is taken to have a fixed UTC offset (the default, Europe/Moscow,
      has one), so that wall-clock arithmetic and instant comparison agree.
    - A [date_cls] is a day index; day [d] starts at [d * DAY].
    - A clock time such as "08:00" is the pair (hour, minute).
    - The remote calendar is a record of two fallible calls; the calls a
      function makes that change the outside world are returned as a log.
    - A text is a string of the bytes of its UTF-8 form.  The digits of a
      text are the characters 0..9.  The code also takes digits outside
      ASCII for digits, so the model reads a text as the code does when
      its only digits are 0..9, as in [SERVICES]; the statements that say
      which number is read are made for texts known to hold no other
      digit ([digit_free]).
    - The process runs in the business zone: a date and time without an
      offset, which the code reads in the zone of the process, is read in
      the business zone.  Only all-day calendar items are read that way. *)

From Stdlib Require Import ZArith List Bool Lia String Ascii Permutation Sorted.
From Stdlib Require Import DecimalString.
From Stdlib Require DecimalNat DecimalFacts.
Import ListNotations.
Open Scope Z_scope.

(* ------------------------------------------------------------------ *)
(** ** datetime, timedelta                                             *)
(* ------------------------------------------------------------------ *)

Definition datetime := Z.
Definition date_cls := Z.
Definition hhmm := (Z * Z)%type.

Definition SECOND : Z := 1000000.
Definition MINUTE : Z := 60 * SECOND.
Definition HOUR : Z := 60 * MINUTE.
Definition DAY : Z := 24 * HOUR.

Definition timedelta_minutes (m : Z) : Z := m * MINUTE.
Definition timedelta_days (d : Z) : Z := d.

(** [dt.minute] *)
Definition dt_minute (t : datetime) : Z := (t / MINUTE) mod 60.
(** [dt.hour] *)
Definition dt_hour (t : datetime) : Z := (t / HOUR) mod 24.
(** [dt.date()] *)
Definition dt_date (t : datetime) : date_cls := t / DAY.
(** [dt.replace(second=0, microsecond=0)] *)
Definition replace_second0 (t : datetime) : datetime := t - t mod MINUTE.
(** [dt.time().strftime("%H:%M")], as the clock time it prints *)
Definition strftime_HM (t : datetime) : hhmm := (dt_hour t, dt_minute t).

Definition hhmm_eqb (a b : hhmm) : bool :=
  (fst a =? fst b) && (snd a =? snd b).

(** [_dt_on(date_obj, hhmm)] *)
Definition _dt_on (date_obj : date_cls) (c : hhmm) : datetime :=
  date_obj * DAY + fst c * HOUR + snd c * MINUTE.

(* ------------------------------------------------------------------ *)
(** ** Booking rules and catalogue                                     *)
(* ------------------------------------------------------------------ *)

Definition WORK_START : hhmm := (8, 0).
Definition WORK_END : hhmm := (18, 0).
Definition SLOT_STEP_MIN : Z := 15.
Definition BUFFER_MIN : Z := 15.

Record service_descr := mk_service {
  svc_name : string;
  svc_price : Z;
  svc_currency : string;
  svc_duration : string
}.

Definition SERVICES : list service_descr := [
  mk_service "Макияж дневной" 60 "€" "60–75 мин";
  mk_service "Макияж вечерний/для съемки" 80 "€" "75–90 мин";
  mk_service "Свадебный макияж (репетиция отдельно)" 130 "€" "90–120 мин";
  mk_service "Укладка (волны/локоны/объем)" 60 "€" "45–75 мин";
  mk_service "Свадебная прическа" 120 "€" "90–120 мин";
  mk_service "Коррекция/оформление бровей" 30 "€" "30 мин"
]%string.

Definition dquote : string := String (ascii_of_nat 34) EmptyString.

(** [BRAND["address"]] *)
Definition BRAND_address : string :=
  ("гор. Ярославль, проспект Октября, д. 42, офис 101, 1 этаж, студия "
   ++ dquote ++ "MAKEUP ROOM" ++ dquote)%string.

(** [ch.isdigit()] for the characters 0..9, on the bytes of the UTF-8
    text.  No byte of a character outside ASCII passes the test, so this
    agrees with the code on every text whose only digits are 0..9, as those
    of [SERVICES] are; a digit outside ASCII, which [str.isdigit] accepts,
    is not a digit here. *)
Definition isdigit (ch : ascii) : bool :=
  let n := Z.of_nat (nat_of_ascii ch) in (48 <=? n) && (n <=? 57).

Definition digit_value (ch : ascii) : Z := Z.of_nat (nat_of_ascii ch) - 48.

(** [s.replace(" ", "")] *)
Fixpoint remove_spaces (s : string) : string :=
  match s with
  | EmptyString => EmptyString
  | String ch s' =>
      if Ascii.eqb ch " "%char then remove_spaces s'
      else String ch (remove_spaces s')
  end.

(** The character loop of [_extract_minutes_from_duration_string]: [num] is
    the digit run being read ([None] for the empty string, otherwise its
    integer value), [nums] the integers read so far. *)
Fixpoint scan_numbers (s : string) (num : option Z) (nums : list Z) : list Z :=
  match s with
  | EmptyString =>
      match num with
      | Some n => nums ++ [n]
      | None => nums
      end
  | String ch s' =>
      if isdigit ch then
        let n := match num with Some n => n | None => 0 end in
        scan_numbers s' (Some (10 * n + digit_value ch)) nums
      else
        match num with
        | Some n => scan_numbers s' None (nums ++ [n])
        | None => scan_numbers s' None nums
        end
  end.

(** Python's [round(n / 2)] for an integer [n]: halves go to the even
    neighbour.  The code divides in floating point, which is exact up to
    [2 ^ 53]; this is the value for [n] within that bound. *)
Definition round_half (n : Z) : Z :=
  let q := n / 2 in
  if Z.even n then q else if Z.even q then q else q + 1.

Definition _extract_minutes_from_duration_string (duration_str : string) : Z :=
  match scan_numbers (remove_spaces duration_str) None [] with
  | [] => 60
  | [n] => n
  | a :: b :: _ => round_half (a + b)
  end.

Fixpoint service_duration_in (catalog : list service_descr) (service_name : string) : Z :=
  match catalog with
  | [] => 60
  | s :: rest =>
      if String.eqb (svc_name s) service_name then
        let m := _extract_minutes_from_duration_string (svc_duration s) in
        if m =? 0 then 60 else m
      else service_duration_in rest service_name
  end.

Definition _service_duration_minutes (service_name : string) : Z :=
  service_duration_in SERVICES service_name.

Fixpoint service_price_in (catalog : list service_descr) (service_name : string) : Z :=
  match catalog with
  | [] => 0
  | s :: rest =>
      if String.eqb (svc_name s) service_name then svc_price s
      else service_price_in rest service_name
  end.

Definition _service_price (service_name : string) : Z :=
  service_price_in SERVICES service_name.

(* ------------------------------------------------------------------ *)
(** ** Interval merge (list_busy_intervals, the part after the fetch)  *)
(* ------------------------------------------------------------------ *)

Definition interval := (datetime * datetime)%type.

(** [result.sort(key=lambda x: x[0])]: a stable sort on the start; an
    element goes in front of the first element whose start is not smaller. *)
Fixpoint insert_by_start (x : interval) (l : list interval) : list interval :=
  match l with
  | [] => [x]
  | y :: l' =>
      if fst x <=? fst y then x :: y :: l'
      else y :: insert_by_start x l'
  end.

Fixpoint sort_by_start (l : list interval) : list interval :=
  match l with
  | [] => []
  | x :: l' => insert_by_start x (sort_by_start l')
  end.

(** One turn of [for s, e in result]: append a new interval when [s] is
    strictly past the end of the last one, otherwise stretch the last one. *)
Definition merge_step (merged : list interval) (x : interval) : list interval :=
  match rev merged with
  | [] => [x]
  | last :: before =>
      if fst x >? snd last then merged ++ [x]
      else rev before ++ [(fst last, Z.max (snd last) (snd x))]
  end.

(** The merge step run on the working list [result]: the contents of
    [result] after the in-place sort, and the returned list. *)
Definition merge_inplace (result : list interval) : list interval * list interval :=
  let result := sort_by_start result in
  let merged := fold_left merge_step result [] in
  (result, merged).

(** What the step hands on: [[(s, e) for s, e in merged]]. *)
Definition merge (result : list interval) : list interval :=
  snd (merge_inplace result).

(* ------------------------------------------------------------------ *)
(** ** The remote calendar and the log of outward calls                *)
(* ------------------------------------------------------------------ *)

(** The value under ["start"] or ["end"] of a calendar item: a [dateTime],
    or a bare [date] for an all-day item. *)
Inductive gtime :=
| GDateTime (t : datetime)
| GDate (d : date_cls).

Record gevent := mk_gevent {
  ev_cancelled : bool;          (* e.get("status") == "cancelled" *)
  ev_start : gtime;
  ev_end : gtime
}.

Record event_body := mk_event_body {
  eb_summary : string;
  eb_description : string;
  eb_location : string;
  eb_start : datetime;
  eb_end : datetime;
  eb_reminders : list Z         (* popup reminders, minutes before *)
}.

(** [cal_service] tells whether [get_calendar_service()] yields a handle;
    the two calls answer [None] when [.execute()] raises. *)
Record calendar := mk_calendar {
  cal_service : bool;
  events_list : datetime -> datetime -> option (list gevent);
  events_insert : event_body -> option (string * string)
}.

Record booking := mk_booking {
  b_service : string;
  b_date : date_cls;            (* "ДД.ММ.ГГГГ" *)
  b_time : hhmm;                (* "HH:MM" *)
  b_allow_overlap : bool;
  b_name : string;
  b_phone : string;
  b_notes : string;
  b_username : string;
  b_timestamp : string;
  b_eventId : string;
  b_htmlLink : string
}.

Record csv_row := mk_csv_row {
  csv_timestamp : string; csv_username : string; csv_name : string;
  csv_phone : string; csv_service : string; csv_date : date_cls;
  csv_time : hhmm; csv_notes : string; csv_eventId : string;
  csv_htmlLink : string
}.

Record sheet_row := mk_sheet_row {
  sh_fio : string; sh_username : string; sh_phone : string;
  sh_service : string; sh_price : Z; sh_date_visit : date_cls;
  sh_time_visit : hhmm; sh_dur_min : Z; sh_note : string; sh_ts : string;
  sh_event_id : string; sh_html_link : string
}.

Inductive button :=
| DayButton (d : date_cls) (nslots : nat)   (* "DD.MM — n сл.", cal:day:d *)
| NoFreeDaysButton                          (* cal:noop *)
| BackToTimeButton (anchor : date_cls).     (* cal:day:anchor *)

Inductive keyboard :=
| main_menu_keyboard
| times_keyboard (date_obj : date_cls) (slots : list datetime)
| day_rows (rows : list button).

Record admin_note := mk_admin_note {
  an_booking : booking;
  an_overlapped : bool
}.

Inductive effect :=
| CalendarInsert (body : event_body)        (* events().insert(body).execute() was called *)
| CsvAppend (row : csv_row)                 (* a row written to bookings.csv *)
| SheetAppend (row : sheet_row)             (* ws.append_row accepted a row *)
| AdminMessage (cid : Z) (msg : admin_note) (* send_message to an admin chat *)
| EditMessage (text : string) (kb : keyboard).
                                            (* safe_edit_message_text(query, text, reply_markup=kb) was called *)

(** A computation that logs its outward calls. *)
Definition IO (A : Type) : Type := (A * list effect)%type.

Definition ret {A} (a : A) : IO A := (a, []).
Definition bind {A B} (m : IO A) (k : A -> IO B) : IO B :=
  let (a, l1) := m in let (b, l2) := k a in (b, l1 ++ l2).
Definition tell (e : effect) : IO unit := (tt, [e]).

Notation "x <- m ;; k" := (bind m (fun x => k))
  (at level 61, m at next level, right associativity).
Notation "m ;;; k" := (bind m (fun _ => k))
  (at level 61, right associativity).

(* ------------------------------------------------------------------ *)
(** ** list_busy_intervals                                             *)
(* ------------------------------------------------------------------ *)

(** [st] and [en] of an item: the [dateTime], or the [date] with
    "T00:00:00" and "T23:59:59" appended.  A [dateTime] carries its offset
    and [astimezone] keeps its instant.  The text made from a [date] has
    none: [astimezone] reads it in the zone of the process, here the
    business zone. *)
Definition item_start (e : gevent) : datetime :=
  match ev_start e with
  | GDateTime t => t
  | GDate d => d * DAY
  end.

Definition item_end (e : gevent) : datetime :=
  match ev_end e with
  | GDateTime t => t
  | GDate d => d * DAY + 23 * HOUR + 59 * MINUTE + 59 * SECOND
  end.

Fixpoint buffered (items : list gevent) : list interval :=
  match items with
  | [] => []
  | e :: rest =>
      if ev_cancelled e then buffered rest
      else (item_start e - timedelta_minutes BUFFER_MIN,
            item_end e + timedelta_minutes BUFFER_MIN) :: buffered rest
  end.

Definition list_busy_intervals (cal : calendar) (date_obj : date_cls) : list interval :=
  if negb (cal_service cal) then []
  else
    let start_day := _dt_on date_obj (0, 0) in
    let end_day := _dt_on date_obj (23, 59) in
    match events_list cal start_day end_day with
    | None => []
    | Some items => merge (buffered items)
    end.

(* ------------------------------------------------------------------ *)
(** ** create_event_on_calendar                                        *)
(* ------------------------------------------------------------------ *)

Inductive reservation :=
| Created (eventId htmlLink : string) (overlapped : bool)
| Conflict (busy : interval)
| Unavailable.

(** [not (end_dt <= bs or start_dt >= be)] *)
Definition intersects (start_dt end_dt : datetime) (b : interval) : bool :=
  negb ((end_dt <=? fst b) || (start_dt >=? snd b)).

Definition nl : string := String (ascii_of_nat 10) EmptyString.

Definition or_dash (s : string) : string :=
  if String.eqb s "" then "—"%string else s.

Definition make_event_body (b : booking) (start_dt end_dt : datetime) : event_body :=
  mk_event_body
    (b_service b ++ " — " ++ b_name b)
    ("Имя: " ++ b_name b ++ nl ++
     "Телефон: " ++ b_phone b ++ nl ++
     "Комментарий: " ++ or_dash (b_notes b) ++ nl ++
     "От бота Telegram (@" ++ b_username b ++ ")")
    BRAND_address
    start_dt end_dt
    [120; 30].

(** The tail of [create_event_on_calendar]: build the event, submit it,
    and report the outcome. *)
Definition insert_event (cal : calendar) (b : booking)
    (start_dt end_dt : datetime) (overlapped : bool) : IO reservation :=
  let event := make_event_body b start_dt end_dt in
  tell (CalendarInsert event) ;;;
  match events_insert cal event with
  | Some (eid, link) => ret (Created eid link overlapped)
  | None => ret Unavailable
  end.

Definition create_event_on_calendar (cal : calendar) (b : booking) : IO reservation :=
  if negb (cal_service cal) then ret Unavailable
  else
    let duration_min := _service_duration_minutes (b_service b) in
    let start_dt := _dt_on (b_date b) (b_time b) in
    let end_dt := start_dt + timedelta_minutes duration_min in
    if negb (b_allow_overlap b) then
      match find (intersects start_dt end_dt)
                 (list_busy_intervals cal (dt_date start_dt)) with
      | Some i => ret (Conflict i)
      | None => insert_event cal b start_dt end_dt false
      end
    else
      let overlapped :=
        match find (intersects start_dt end_dt)
                   (list_busy_intervals cal (dt_date start_dt)) with
        | Some _ => true
        | None => false
        end in
      insert_event cal b start_dt end_dt overlapped.

(* ------------------------------------------------------------------ *)
(** ** compute_free_slots_for_date                                     *)
(* ------------------------------------------------------------------ *)

(** The loop over [busy] that collects the free intervals of the working
    window; returns [free] and the final [cursor]. *)
Fixpoint free_loop (busy : list interval) (day_start day_end : datetime)
    (cursor : datetime) (free : list interval) : list interval * datetime :=
  match busy with
  | [] => (free, cursor)
  | (bs, be) :: rest =>
      if (be <=? day_start) || (bs >=? day_end) then
        free_loop rest day_start day_end cursor free
      else
        let free := if bs >? cursor then free ++ [(cursor, Z.min bs day_end)] else free in
        let cursor := Z.max cursor be in
        if cursor >=? day_end then (free, cursor)
        else free_loop rest day_start day_end cursor free
  end.

Definition free_intervals (busy : list interval) (day_start day_end : datetime)
    : list interval :=
  let (free, cursor) := free_loop busy day_start day_end day_start [] in
  if cursor <? day_end then free ++ [(cursor, day_end)] else free.

(** The first candidate of a free interval that starts at [fs]. *)
Definition first_candidate (fs : datetime) : datetime :=
  let minutes_mod := dt_minute fs mod SLOT_STEP_MIN in
  if negb (minutes_mod =? 0) then
    replace_second0 (fs + timedelta_minutes (SLOT_STEP_MIN - minutes_mod))
  else fs.

(** The body of [while cur <= fe] for one value of [cur]. *)
Definition offer (now need fe cur : datetime) (slots : list datetime) : list datetime :=
  if cur >? now then
    if cur <? fe then
      if cur + need <=? fe then slots ++ [cur] else slots
    else
      if hhmm_eqb (strftime_HM fe) WORK_END then slots ++ [cur] else slots
  else slots.

(** [while cur <= fe: ...; cur += step], with a bound on the number of
    turns; [while_fuel] below gives a bound the loop never reaches. *)
Fixpoint slot_while (fuel : nat) (now need step fe cur : datetime)
    (slots : list datetime) : list datetime :=
  match fuel with
  | O => slots
  | S fuel' =>
      if cur <=? fe then
        slot_while fuel' now need step fe (cur + step) (offer now need fe cur slots)
      else slots
  end.

Definition while_fuel (step fe cur : datetime) : nat :=
  S (Z.to_nat ((fe - cur) / step + 1)).

Definition slots_of_interval (now need step : datetime) (slots : list datetime)
    (f : interval) : list datetime :=
  let (fs, fe) := f in
  let cur := first_candidate fs in
  slot_while (while_fuel step fe cur) now need step fe cur slots.

(** [sorted({s for s in slots})] *)
Fixpoint insert_unique (x : datetime) (l : list datetime) : list datetime :=
  match l with
  | [] => [x]
  | y :: l' =>
      if x <? y then x :: y :: l'
      else if x =? y then y :: l'
      else y :: insert_unique x l'
  end.

Definition sorted_set (l : list datetime) : list datetime :=
  fold_right insert_unique [] l.

Definition compute_free_slots_for_date (cal : calendar) (now : datetime)
    (date_obj : date_cls) (needed_minutes : Z) : list datetime :=
  let day_start := _dt_on date_obj WORK_START + timedelta_minutes BUFFER_MIN in
  let day_end := _dt_on date_obj WORK_END in
  if day_end <=? day_start then []
  else
    let busy := list_busy_intervals cal date_obj in
    let free := free_intervals busy day_start day_end in
    let step := timedelta_minutes SLOT_STEP_MIN in
    let need := timedelta_minutes needed_minutes in
    sorted_set (fold_left (slots_of_interval now need step) free []).

(* ------------------------------------------------------------------ *)
(** ** Dialogue steps                                                  *)
(* ------------------------------------------------------------------ *)

(** [nearest_free_days_keyboard]: the [while found < 7 and d <= anchor + 30]
    loop, bounded by [fuel] turns. *)
Fixpoint nearest_loop (fuel : nat) (cal : calendar) (now : datetime)
    (anchor_date : date_cls) (service_minutes : Z)
    (d : date_cls) (found : Z) (rows : list button) : list button * Z :=
  match fuel with
  | O => (rows, found)
  | S fuel' =>
      if (found <? 7) && (d <=? anchor_date + timedelta_days 30) then
        let d := d + timedelta_days 1 in
        let slots := compute_free_slots_for_date cal now d service_minutes in
        match slots with
        | [] => nearest_loop fuel' cal now anchor_date service_minutes d found rows
        | _ :: _ =>
            nearest_loop fuel' cal now anchor_date service_minutes d (found + 1)
              (rows ++ [DayButton d (List.length slots)])
        end
      else (rows, found)
  end.

Definition nearest_fuel : nat := 32.

Definition nearest_free_days_keyboard (cal : calendar) (now : datetime)
    (anchor_date : date_cls) (service_minutes : Z) : list button :=
  let (rows, found) :=
    nearest_loop nearest_fuel cal now anchor_date service_minutes anchor_date 0 [] in
  let rows := if found =? 0 then rows ++ [NoFreeDaysButton] else rows in
  rows ++ [BackToTimeButton anchor_date].

(** [time_pick_from_slots] after [times_keyboard]: the button of a slot
    carries the date of the keyboard and the slot's "%H:%M" label. *)
Definition time_pick_from_slots (b : booking) (date_obj : date_cls)
    (slot : datetime) : booking :=
  mk_booking (b_service b) date_obj (strftime_HM slot) false
    (b_name b) (b_phone b) (b_notes b) (b_username b) (b_timestamp b)
    (b_eventId b) (b_htmlLink b).

Record env := mk_env {
  env_cal : calendar;
  env_gsheet : bool;            (* the worksheet is reachable and accepts a row *)
  env_admin_ids : list Z
}.

Definition append_booking_row_csv (b : booking) : IO unit :=
  tell (CsvAppend (mk_csv_row (b_timestamp b) (b_username b) (b_name b)
          (b_phone b) (b_service b) (b_date b) (b_time b) (b_notes b)
          (b_eventId b) (b_htmlLink b))).

Definition at_username (u : string) : string :=
  match u with
  | EmptyString => u
  | String c _ => if Ascii.eqb c "@"%char then u else ("@" ++ u)%string
  end.

Definition append_gsheet_row (e : env) (b : booking) (event : option (string * string))
    : IO unit :=
  if negb (env_gsheet e) then ret tt
  else
    let event_id := match event with Some (i, _) => i | None => ""%string end in
    let html_link := match event with Some (_, l) => l | None => ""%string end in
    tell (SheetAppend (mk_sheet_row (b_name b) (at_username (b_username b))
            (b_phone b) (b_service b) (_service_price (b_service b))
            (b_date b) (b_time b) (_service_duration_minutes (b_service b))
            (b_notes b) (b_timestamp b) event_id html_link)).

Fixpoint send_admin (ids : list Z) (msg : admin_note) : IO unit :=
  match ids with
  | [] => ret tt
  | cid :: rest => tell (AdminMessage cid msg) ;;; send_admin rest msg
  end.

Inductive callback := book_cancel | book_send | other_data.
Inductive conv_state := ASK_TIME | BOOK_CONFIRM | conversation_END.

Definition set_calendar_fields (b : booking) (eid link : string) : booking :=
  mk_booking (b_service b) (b_date b) (b_time b) (b_allow_overlap b)
    (b_name b) (b_phone b) (b_notes b) (b_username b) (b_timestamp b) eid link.

Definition set_stamp (b : booking) (ts username : string) : booking :=
  mk_booking (b_service b) (b_date b) (b_time b) (b_allow_overlap b)
    (b_name b) (b_phone b) (b_notes b) username ts (b_eventId b) (b_htmlLink b).

Definition thanks_text : string :=
  "Спасибо! Заявка отправлена. Мы свяжемся с тобой для подтверждения."%string.
Definition overlap_text : string :=
  (nl ++ "⚠️ Обрати внимание: на эту дату уже есть запись другого клиента. Я свяжусь с тобой в личных сообщениях и предложу варианты.")%string.
Definition calendar_note_text : string :=
  (nl ++ "ℹ️ Внутренний календарь временно недоступен, но мы получили вашу заявку.")%string.

(** [book_confirm], from the test of [query.data] on: the next
    conversation state and what is left of the draft in [user_data].  The
    handler first acknowledges the button press ([safe_answer_callback]);
    that call to Telegram writes nothing and is not in the log, and the
    handler gets no further when it raises. *)
Definition book_confirm (e : env) (now : datetime) (ts username : string)
    (data : callback) (draft : booking) : IO (conv_state * option booking) :=
  match data with
  | book_cancel =>
      tell (EditMessage "Заявка отменена." main_menu_keyboard) ;;;
      ret (conversation_END, None)
  | other_data => ret (BOOK_CONFIRM, Some draft)
  | book_send =>
      let b := set_stamp draft ts username in
      created <- create_event_on_calendar (env_cal e) b ;;
      match created with
      | Conflict _ =>
          let d := b_date b in
          let minutes := _service_duration_minutes (b_service b) in
          let slots := compute_free_slots_for_date (env_cal e) now d minutes in
          tell (EditMessage "Упс, это время уже занято. Выберите другое:"
                  (times_keyboard d slots)) ;;;
          ret (ASK_TIME, Some b)
      | _ =>
          let overlapped :=
            match created with Created _ _ o => o | _ => false end in
          let b :=
            match created with
            | Created eid link _ => set_calendar_fields b eid link
            | _ => set_calendar_fields b "" ""
            end in
          let calendar_note :=
            match created with
            | Created _ _ _ => ""%string
            | _ => calendar_note_text
            end in
          append_booking_row_csv b ;;;
          append_gsheet_row e b
            (match created with Created eid link _ => Some (eid, link) | _ => None end) ;;;
          send_admin (env_admin_ids e) (mk_admin_note b overlapped) ;;;
          let thanks :=
            (thanks_text ++ (if overlapped then overlap_text else "")
               ++ calendar_note)%string in
          tell (EditMessage thanks main_menu_keyboard) ;;;
          ret (conversation_END, None)
      end
  end.

(* ------------------------------------------------------------------ *)
(** ** Vocabulary of the statements                                    *)
(* ------------------------------------------------------------------ *)

(** An interval stands for the half-open range [start, end). *)
Definition valid_interval (i : interval) : Prop := fst i < snd i.

Definition inside (t : datetime) (i : interval) : Prop := fst i <= t < snd i.

Definition covers (l : list interval) (t : datetime) : Prop :=
  exists i, In i l /\ inside t i.

Definition start_le (a b : interval) : Prop := fst a <= fst b.
Definition start_lt (a b : interval) : Prop := fst a < fst b.
(** [b] begins strictly after [a] is over: no overlap, no touching. *)
Definition apart (a b : interval) : Prop := snd a < fst b.

(** The range [start_dt, end_dt) and the interval [b] overlap. *)
Definition overlaps (start_dt end_dt : datetime) (b : interval) : Prop :=
  fst b < end_dt /\ start_dt < snd b.

(** The merge loop, seen from the interval being grown: [cur] is the last
    element of [merged], [l] what is left of [result]. *)
Fixpoint merge_from (cur : interval) (l : list interval) : list interval :=
  match l with
  | [] => [cur]
  | x :: l' =>
      if fst x >? snd cur then cur :: merge_from x l'
      else merge_from (fst cur, Z.max (snd cur) (snd x)) l'
  end.

Definition STEP : Z := timedelta_minutes SLOT_STEP_MIN.

Definition day_start_of (d : date_cls) : datetime :=
  _dt_on d WORK_START + timedelta_minutes BUFFER_MIN.
Definition day_end_of (d : date_cls) : datetime := _dt_on d WORK_END.

(** The test the loop body applies to a candidate [t] of a free interval
    that ends at [fe]. *)
Definition offerable (now need fe t : datetime) : Prop :=
  now < t /\ ((t < fe /\ t + need <= fe) \/ (t = fe /\ strftime_HM fe = WORK_END)).

(** [t] is reached from [cur] in whole steps. *)
Definition stepped_from (cur t : datetime) : Prop :=
  exists k, 0 <= k /\ t = cur + k * STEP.

(** The free interval [f] is clear of [busy]: every busy interval is over
    by its start or begins at its end or later. *)
Definition clear_of (busy : list interval) (f : interval) : Prop :=
  forall b, In b busy -> snd b <= fst f \/ snd f <= fst b.

(** The calendar cannot be asked: there is no handle, or every call on it
    raises. *)
Definition listing_fails (cal : calendar) : Prop :=
  forall a b, events_list cal a b = None.
Definition insert_fails (cal : calendar) : Prop :=
  forall body, events_insert cal body = None.
Definition oracle_unreachable (cal : calendar) : Prop :=
  cal_service cal = false \/ (listing_fails cal /\ insert_fails cal).
Definition oracle_unavailable (cal : calendar) : Prop :=
  cal_service cal = false \/ listing_fails cal.

Definition is_conflict (r : reservation) : bool :=
  match r with Conflict _ => true | _ => false end.

(** The days offered by a keyboard. *)
Fixpoint offered_days (rows : list button) : list date_cls :=
  match rows with
  | [] => []
  | DayButton d _ :: rest => d :: offered_days rest
  | _ :: rest => offered_days rest
  end.

(* ------------------------------------------------------------------ *)
(** ** Sample calendars and drafts                                     *)
(* ------------------------------------------------------------------ *)

Definition at_clock (d : date_cls) (h m s : Z) : datetime :=
  d * DAY + h * HOUR + m * MINUTE + s * SECOND.

Definition timed_event (a b : datetime) : gevent :=
  mk_gevent false (GDateTime a) (GDateTime b).

(** A configured calendar that holds [evs]: a listing returns the items
    that end after [timeMin] and start before [timeMax], and an insert is
    accepted. *)
Definition calendar_with (evs : list gevent) : calendar :=
  mk_calendar true
    (fun a b => Some (filter (fun e => (a <? item_end e) && (item_start e <? b)) evs))
    (fun _ => Some ("evt1", "https://calendar.example/evt1")%string).

(** No calendar configured. *)
Definition calendar_off : calendar :=
  mk_calendar false (fun _ _ => None) (fun _ => None).

(** A configured calendar on which every call raises. *)
Definition calendar_down : calendar :=
  mk_calendar true (fun _ _ => None) (fun _ => None).

(** An all-day block: one event from midnight of day [a] to midnight of
    day [b]. *)
Definition block_days (a b : date_cls) : gevent :=
  timed_event (at_clock a 0 0 0) (at_clock b 0 0 0).

Definition styling : string := "Укладка (волны/локоны/объем)"%string.

Definition sample_draft (d : date_cls) (t : hhmm) (allow_overlap : bool) : booking :=
  mk_booking styling d t allow_overlap "Anna" "+70000000000" "" "" "" "" "".

(* ------------------------------------------------------------------ *)
(** ** Further vocabulary                                              *)
(* ------------------------------------------------------------------ *)

(** No character of [s] is a digit. *)
Fixpoint no_digit (s : string) : bool :=
  match s with
  | EmptyString => true
  | String ch s' => negb (isdigit ch) && no_digit s'
  end.

(** The character code of a byte. *)
Definition char_code (ch : ascii) : Z := Z.of_nat (nat_of_ascii ch).

(** The UTF-8 bytes of a small Cyrillic letter, U+0430 to U+044F. *)
Definition cyrillic_small (lead cont : ascii) : bool :=
  ((char_code lead =? 208) && (176 <=? char_code cont) && (char_code cont <=? 191))
  || ((char_code lead =? 209) && (128 <=? char_code cont) && (char_code cont <=? 143)).

(** A text in which [str.isdigit] finds no digit: it is made of ASCII
    characters other than 0..9, of en dashes and of small Cyrillic
    letters.  This is narrower than [no_digit], which passes every byte of
    a character outside ASCII. *)
Inductive digit_free : string -> Prop :=
| digit_free_nil : digit_free ""%string
| digit_free_ascii ch s :
    char_code ch < 128 -> isdigit ch = false -> digit_free s ->
    digit_free (String ch s)
| digit_free_dash s : digit_free s -> digit_free ("–" ++ s)%string
| digit_free_cyrillic lead cont s :
    cyrillic_small lead cont = true -> digit_free s ->
    digit_free (String lead (String cont s)).

(** Both ends of the item are given as a [dateTime]. *)
Definition timed_item (e : gevent) : Prop :=
  match ev_start e, ev_end e with
  | GDateTime _, GDateTime _ => True
  | _, _ => False
  end.


(** The range a non-cancelled calendar item blocks: the item with the
    buffer on both sides. *)
Definition blocked_by (e : gevent) (t : datetime) : Prop :=
  ev_cancelled e = false /\
  item_start e - timedelta_minutes BUFFER_MIN <= t
    < item_end e + timedelta_minutes BUFFER_MIN.

(* ------------------------------------------------------------------ *)
(** ** times_keyboard                                                  *)
(* ------------------------------------------------------------------ *)

Inductive time_button :=
| SlotButton (date_obj : date_cls) (label : hhmm)   (* time:{date_str}:{label} *)
| NoSlotsButton                                     (* "Свободных слотов нет", cal:noop *)
| OtherTimeButton (date_obj : date_cls)             (* time:other:{date_str} *)
| NextFreeDaysButton (date_obj : date_cls)          (* free:next:{date_str} *)
| ChangeDateButton (date_obj : date_cls)            (* cal:change_date:{date_str} *)
| BackMenuButton.                                   (* back_menu *)

(** One turn of [for dt in slots]: the finished rows and the row being
    filled. *)
Definition times_row_step (date_obj : date_cls)
    (st : list (list time_button) * list time_button) (dt : datetime)
    : list (list time_button) * list time_button :=
  let (rows, row) := st in
  let row := row ++ [SlotButton date_obj (strftime_HM dt)] in
  if (List.length row =? 3)%nat then (rows ++ [row], []) else (rows, row).

(** The rows that [times_keyboard] hands to [InlineKeyboardMarkup]. *)
Definition times_keyboard_rows (date_obj : date_cls) (slots : list datetime)
    : list (list time_button) :=
  let rows :=
    match slots with
    | [] => [[NoSlotsButton]]
    | _ :: _ =>
        let (rows, row) := fold_left (times_row_step date_obj) slots ([], []) in
        match row with
        | [] => rows
        | _ :: _ => rows ++ [row]
        end
    end in
  rows ++ [[OtherTimeButton date_obj]; [NextFreeDaysButton date_obj];
           [ChangeDateButton date_obj]; [BackMenuButton]].

(** The four rows under the slots. *)
Definition times_keyboard_tail (date_obj : date_cls) : list (list time_button) :=
  [[OtherTimeButton date_obj]; [NextFreeDaysButton date_obj];
   [ChangeDateButton date_obj]; [BackMenuButton]].

(** The day has at least one slot. *)
Definition has_slots (cal : calendar) (now : datetime) (minutes : Z)
    (d : date_cls) : bool :=
  match compute_free_slots_for_date cal now d minutes with
  | [] => false
  | _ :: _ => true
  end.

(** The [n] days that follow [d]. *)
Fixpoint days_after (d : date_cls) (n : nat) : list date_cls :=
  match n with
  | O => []
  | S n' => (d + 1) :: days_after (d + 1) n'
  end.

(** The button of a day with slots. *)
Definition day_button_for (cal : calendar) (now : datetime) (minutes : Z)
    (d : date_cls) : button :=
  DayButton d (List.length (compute_free_slots_for_date cal now d minutes)).

(* ------------------------------------------------------------------ *)
(** ** Reviews                                                         *)
(* ------------------------------------------------------------------ *)

(** A stored review; an absent key and an empty text are both the empty
    string, which is how [r.get(key) or default] treats them. *)
Record review := mk_review {
  rv_name : string;
  rv_text : string;
  rv_date : string;
  rv_username : string
}.

(** [value or default] on texts *)
Definition or_text (value default : string) : string :=
  if String.eqb value "" then default else value.

(** [str(n)] for a count *)
Definition str_of_nat (n : nat) : string :=
  NilEmpty.string_of_uint (Nat.to_uint n).

Definition reviews_title : string := "<b>Отзывы клиентов</b>"%string.

(** [f"— <b>{name}</b> ({date_s}): {text}"] *)
Definition review_line (r : review) : string :=
  ("— <b>" ++ or_text (rv_name r) "Гость" ++ "</b> ("
     ++ or_text (rv_date r) "" ++ "): " ++ or_text (rv_text r) "")%string.

Definition reviews_footer (limit total : nat) : string :=
  (nl ++ "Показано " ++ str_of_nat limit ++ " из " ++ str_of_nat total
      ++ ". Напишите /reviews, чтобы увидеть больше.")%string.

(** [reviews_text(limit)], on the list that [load_reviews()] returns. *)
Definition reviews_text (limit : nat) (stored : list review) : string :=
  let revs := rev stored in
  match revs with
  | [] => "Пока отзывов нет. Будем рады, если вы поделитесь впечатлением! Нажмите «✍️ Оставить отзыв»."%string
  | _ :: _ =>
      let cut := firstn limit revs in
      let lines := reviews_title :: map review_line cut in
      let lines :=
        if (limit <? List.length revs)%nat
        then lines ++ [reviews_footer limit (List.length revs)]
        else lines in
      String.concat nl lines
  end.

(** The text that [cmd_reviews] replies with. *)
Definition cmd_reviews (stored : list review) : string :=
  match stored with
  | [] => "Отзывов пока нет."%string
  | _ :: _ =>
      let lines :=
        reviews_title
          :: map review_line (rev (skipn (List.length stored - 10) stored)) in
      String.concat nl lines
  end.

(* ------------------------------------------------------------------ *)
(** ** Readings of the log                                             *)
(* ------------------------------------------------------------------ *)

Fixpoint csv_rows (log : list effect) : list csv_row :=
  match log with
  | [] => []
  | CsvAppend row :: rest => row :: csv_rows rest
  | _ :: rest => csv_rows rest
  end.

Fixpoint sheet_rows (log : list effect) : list sheet_row :=
  match log with
  | [] => []
  | SheetAppend row :: rest => row :: sheet_rows rest
  | _ :: rest => sheet_rows rest
  end.

Fixpoint admin_messages (log : list effect) : list (Z * admin_note) :=
  match log with
  | [] => []
  | AdminMessage cid msg :: rest => (cid, msg) :: admin_messages rest
  | _ :: rest => admin_messages rest
  end.

Fixpoint calendar_inserts (log : list effect) : list event_body :=
  match log with
  | [] => []
  | CalendarInsert body :: rest => body :: calendar_inserts rest
  | _ :: rest => calendar_inserts rest
  end.

Fixpoint edits (log : list effect) : list (string * keyboard) :=
  match log with
  | [] => []
  | EditMessage text kb :: rest => (text, kb) :: edits rest
  | _ :: rest => edits rest
  end.

(** A list of intervals in the shape the merge produces, with each
    interval non-empty. *)
Definition canonical (l : list interval) : Prop :=
  StronglySorted (fun a b => start_le a b /\ apart a b) l /\ Forall valid_interval l.

(* ------------------------------------------------------------------ *)
(** ** Inline calendar: day_button, build_month_keyboard               *)
(* ------------------------------------------------------------------ *)

(** A calendar date [date_cls(year, month, day)]. *)
Record ymd := mk_ymd { ymd_year : Z; ymd_month : Z; ymd_day : Z }.

(** [a < b] on dates *)
Definition ymd_ltb (a b : ymd) : bool :=
  (ymd_year a <? ymd_year b)
  || ((ymd_year a =? ymd_year b)
      && ((ymd_month a <? ymd_month b)
          || ((ymd_month a =? ymd_month b) && (ymd_day a <? ymd_day b)))).

Definition is_leap (y : Z) : bool :=
  (y mod 4 =? 0) && (negb (y mod 100 =? 0) || (y mod 400 =? 0)).

Definition days_in_month (y m : Z) : Z :=
  if m =? 2 then (if is_leap y then 29 else 28)
  else if (m =? 4) || (m =? 6) || (m =? 9) || (m =? 11) then 30
  else 31.

(** The day count of the proleptic Gregorian calendar that Python's
    [date.toordinal()] returns: day 1 is 0001-01-01. *)
Definition days_before_year (y : Z) : Z :=
  let p := y - 1 in p * 365 + p / 4 - p / 100 + p / 400.

Fixpoint days_in_first_months (y : Z) (n : nat) : Z :=
  match n with
  | O => 0
  | S k => days_in_first_months y k + days_in_month y (Z.of_nat (S k))
  end.

Definition days_before_month (y m : Z) : Z :=
  days_in_first_months y (Z.to_nat (m - 1)).

Definition toordinal (x : ymd) : Z :=
  days_before_year (ymd_year x) + days_before_month (ymd_year x) (ymd_month x)
  + ymd_day x.

(** [date.weekday()]: Monday is 0. *)
Definition weekday (x : ymd) : Z := (toordinal x + 6) mod 7.

(** [calendar.monthrange(year, month)] *)
Definition monthrange (year month : Z) : Z * Z :=
  (weekday (mk_ymd year month 1), days_in_month year month).

(** [x + timedelta(days=1)] and [x - timedelta(days=1)] *)
Definition next_day (x : ymd) : ymd :=
  let (y, m, d) := x in
  if d <? days_in_month y m then mk_ymd y m (d + 1)
  else if m <? 12 then mk_ymd y (m + 1) 1
  else mk_ymd (y + 1) 1 1.

Definition prev_day (x : ymd) : ymd :=
  let (y, m, d) := x in
  if 1 <? d then mk_ymd y m (d - 1)
  else if 1 <? m then mk_ymd y (m - 1) (days_in_month y (m - 1))
  else mk_ymd (y - 1) 12 31.

(** [x + timedelta(days=n)] and [x - timedelta(days=n)] *)
Definition plus_days (n : nat) (x : ymd) : ymd := Nat.iter n next_day x.
Definition minus_days (n : nat) (x : ymd) : ymd := Nat.iter n prev_day x.

(** [x.replace(day=15)] *)
Definition replace_day15 (x : ymd) : ymd := mk_ymd (ymd_year x) (ymd_month x) 15.

Inductive cal_button :=
| TitleButton (year month : Z)          (* "{MONTHS_RU[month - 1]} {year}", cal:noop *)
| WeekdayButton (i : nat)               (* week_header[i], cal:noop *)
| BlankButton                           (* " ", cal:noop *)
| PastDayButton (day : Z)               (* "·{day}·", cal:noop *)
| PickDayButton (year month day : Z)    (* str(day), cal:day:{year}-{month:02d}-{day:02d} *)
| PrevMonthButton (year month : Z)      (* cal:show:{year}-{month:02d} *)
| CancelButton                          (* book_cancel *)
| NextMonthButton (year month : Z).     (* cal:show:{year}-{month:02d} *)

Definition day_button (year month day : Z) (today : ymd) : cal_button :=
  if ymd_ltb (mk_ymd year month day) today then PastDayButton day
  else PickDayButton year month day.

(** One turn of [while day <= days_in_month]: the rows so far and the
    row being filled. *)
Definition grid_step (year month : Z) (today : ymd)
    (st : list (list cal_button) * list cal_button) (day : Z)
    : list (list cal_button) * list cal_button :=
  let (rows, row) := st in
  let row := row ++ [day_button year month day today] in
  if (List.length row =? 7)%nat then (rows ++ [row], []) else (rows, row).

(** The values [day] takes in the loop: 1 to [days_in_month]. *)
Definition month_days (days_in_month : Z) : list Z :=
  map Z.of_nat (seq 1 (Z.to_nat days_in_month)).

(** [build_month_keyboard(year, month, anchor)], with the date read from
    the clock as [today]; [anchor] is the parsed anchor text. *)
Definition build_month_keyboard (year month : Z) (anchor : option ymd) (today : ymd)
    : list (list cal_button) :=
  let (first_weekday, days_in_month) := monthrange year month in
  let rows := [[TitleButton year month]; map WeekdayButton (seq 0 7)] in
  let row := repeat BlankButton (Z.to_nat first_weekday) in
  let (rows, row) :=
    fold_left (grid_step year month today) (month_days days_in_month) (rows, row) in
  let rows :=
    match row with
    | [] => rows
    | _ :: _ => rows ++ [row ++ repeat BlankButton (7 - List.length row)]
    end in
  let anchor_date :=
    match anchor with
    | None => mk_ymd year month 15
    | Some a => a
    end in
  let prev_month := replace_day15 (minus_days 31 anchor_date) in
  let next_month := replace_day15 (plus_days 31 anchor_date) in
  rows ++ [[PrevMonthButton (ymd_year prev_month) (ymd_month prev_month);
            CancelButton;
            NextMonthButton (ymd_year next_month) (ymd_month next_month)]].

(* ================================================================== *)
(** * Properties                                                       *)
(* ================================================================== *)

(* ------------------------------------------------------------------ *)
(** ** The stable sort                                                 *)
(* ------------------------------------------------------------------ *)

Lemma insert_by_start_perm x l : Permutation (insert_by_start x l) (x :: l).
Proof.
  induction l as [|y l IH]; simpl; [reflexivity|].
  destruct (fst x <=? fst y); [reflexivity|].
  rewrite IH. apply perm_swap.
Qed.

Lemma sort_by_start_perm l : Permutation (sort_by_start l) l.
Proof.
  induction l as [|x l IH]; simpl; [constructor|].
  rewrite insert_by_start_perm. now constructor.
Qed.

Lemma insert_by_start_sorted x l :
  StronglySorted start_le l -> StronglySorted start_le (insert_by_start x l).
Proof.
  induction 1 as [|y l Hs IH Hy]; simpl.
  - repeat constructor.
  - destruct (Z.leb_spec (fst x) (fst y)) as [Hle|Hgt].
    + constructor; [now constructor|].
      constructor; [exact Hle|].
      eapply Forall_impl; [|exact Hy].
      unfold start_le; intros; lia.
    + constructor; [exact IH|].
      rewrite insert_by_start_perm.
      constructor; [unfold start_le; lia | exact Hy].
Qed.

Lemma sort_by_start_sorted l : StronglySorted start_le (sort_by_start l).
Proof.
  induction l; simpl; [constructor | now apply insert_by_start_sorted].
Qed.


Lemma sort_by_start_fixed l : sort_by_start l = l -> StronglySorted start_le l.
Proof. intros H. rewrite <- H. apply sort_by_start_sorted. Qed.

(* ------------------------------------------------------------------ *)
(** ** The merge loop                                                  *)
(* ------------------------------------------------------------------ *)

Lemma merge_step_last pre cur x :
  merge_step (pre ++ [cur]) x =
  if fst x >? snd cur then pre ++ [cur; x]
  else pre ++ [(fst cur, Z.max (snd cur) (snd x))].
Proof.
  unfold merge_step. rewrite rev_app_distr. simpl.
  destruct (fst x >? snd cur).
  - now rewrite <- app_assoc.
  - now rewrite rev_involutive.
Qed.

Lemma fold_merge_step pre cur l :
  fold_left merge_step l (pre ++ [cur]) = pre ++ merge_from cur l.
Proof.
  revert pre cur. induction l as [|x l IH]; intros pre cur; simpl; [reflexivity|].
  rewrite merge_step_last. destruct (fst x >? snd cur).
  - change (pre ++ [cur; x]) with (pre ++ [cur] ++ [x]).
    rewrite app_assoc, IH, <- app_assoc. reflexivity.
  - apply IH.
Qed.

Lemma merge_unfold l :
  merge l = match sort_by_start l with
            | [] => []
            | cur :: rest => merge_from cur rest
            end.
Proof.
  unfold merge, merge_inplace. simpl.
  destruct (sort_by_start l) as [|cur rest]; [reflexivity|].
  simpl. apply (fold_merge_step [] cur rest).
Qed.

Lemma merge_from_starts cur l i :
  In i (merge_from cur l) -> fst i = fst cur \/ exists x, In x l /\ fst i = fst x.
Proof.
  revert cur. induction l as [|x l IH]; intros cur; simpl.
  - intros [<-|[]]. now left.
  - destruct (fst x >? snd cur); simpl.
    + intros [<-|Hin]; [now left|].
      right. destruct (IH _ Hin) as [->|(y & Hy & ->)]; eauto.
    + intros Hin. destruct (IH _ Hin) as [->|(y & Hy & ->)]; [now left|eauto].
Qed.

Lemma merge_from_sorted cur l :
  StronglySorted start_le (cur :: l) ->
  StronglySorted (fun a b => start_le a b /\ apart a b) (merge_from cur l).
Proof.
  revert cur. induction l as [|x l IH]; intros cur Hs; simpl.
  - repeat constructor.
  - inversion Hs as [|? ? Hl Hcur]; subst.
    inversion Hcur as [|? ? Hcx Hcl]; subst.
    inversion Hl as [|? ? Hl' Hxl]; subst.
    destruct (Z.gtb_spec (fst x) (snd cur)) as [Hgt|Hle].
    + constructor; [apply IH; exact Hl|].
      apply Forall_forall. intros i Hi. unfold start_le, apart in *.
      destruct (merge_from_starts _ _ _ Hi) as [->|(y & Hy & ->)]; [lia|].
      rewrite Forall_forall in Hxl. specialize (Hxl _ Hy). lia.
    + apply IH. constructor; [exact Hl'|].
      eapply Forall_impl; [|exact Hcl]. unfold start_le. simpl. auto.
Qed.

Lemma merge_from_valid cur l :
  valid_interval cur -> Forall valid_interval l ->
  Forall valid_interval (merge_from cur l).
Proof.
  revert cur. induction l as [|x l IH]; intros cur Hc Hl; simpl.
  - now constructor.
  - inversion Hl; subst. destruct (fst x >? snd cur).
    + constructor; [exact Hc | now apply IH].
    + apply IH; [|assumption]. unfold valid_interval in *. simpl. lia.
Qed.

Lemma merge_from_covers cur l t :
  StronglySorted start_le (cur :: l) ->
  covers (merge_from cur l) t <-> covers (cur :: l) t.
Proof.
  revert cur. induction l as [|x l IH]; intros cur Hs; simpl; [reflexivity|].
  inversion Hs as [|? ? Hl Hcur]; subst.
  inversion Hcur as [|? ? Hcx Hcl]; subst.
  inversion Hl as [|? ? Hl' Hxl]; subst.
  unfold start_le in Hcx.
  destruct (Z.gtb_spec (fst x) (snd cur)) as [Hgt|Hle].
  - unfold covers in *. split.
    + intros (i & [<-|Hi] & Ht); [exists cur; simpl; auto|].
      destruct (proj1 (IH x Hl)) as (j & Hj & Hjt); [eauto|].
      exists j. simpl in *. tauto.
    + intros (i & [<-|Hi] & Ht); [exists cur; simpl; auto|].
      destruct (proj2 (IH x Hl)) as (j & Hj & Hjt); [eauto|].
      exists j. simpl. tauto.
  - assert (Hs' : StronglySorted start_le ((fst cur, Z.max (snd cur) (snd x)) :: l)).
    { constructor; [exact Hl'|]. eapply Forall_impl; [|exact Hcl].
      unfold start_le. simpl. auto. }
    rewrite (IH _ Hs'). unfold covers, inside. split.
    + intros (i & [<-|Hi] & Ht); simpl in *.
      * destruct (Z.lt_ge_cases t (snd cur)).
        -- exists cur. split; [auto | lia].
        -- exists x. split; [auto | lia].
      * exists i. auto.
    + intros (i & [<-|[<-|Hi]] & Ht).
      * exists (fst cur, Z.max (snd cur) (snd x)). simpl. split; [auto | lia].
      * exists (fst cur, Z.max (snd cur) (snd x)). simpl. split; [auto | lia].
      * exists i. simpl. auto.
Qed.


Lemma merge_sorted l :
  StronglySorted (fun a b => start_le a b /\ apart a b) (merge l).
Proof.
  rewrite merge_unfold.
  pose proof (sort_by_start_sorted l) as Hs.
  destruct (sort_by_start l); [constructor | now apply merge_from_sorted].
Qed.

Lemma StronglySorted_impl {A} (R S : A -> A -> Prop) l :
  (forall a b, R a b -> S a b) -> StronglySorted R l -> StronglySorted S l.
Proof.
  intros HRS. induction 1; constructor; auto.
  eapply Forall_impl; [|eassumption]. auto.
Qed.

Lemma merge_start_sorted l : StronglySorted start_le (merge l).
Proof.
  eapply StronglySorted_impl; [|apply merge_sorted]. now intros a b [H _].
Qed.

Lemma merge_apart l : StronglySorted apart (merge l).
Proof.
  eapply StronglySorted_impl; [|apply merge_sorted]. now intros a b [_ H].
Qed.

Lemma covers_perm l l' t : Permutation l l' -> covers l t -> covers l' t.
Proof.
  intros Hp (i & Hi & Ht). exists i. split; [|exact Ht].
  eapply Permutation_in; eassumption.
Qed.

Lemma merge_covers l t : covers (merge l) t <-> covers l t.
Proof.
  rewrite merge_unfold.
  pose proof (sort_by_start_sorted l) as Hs.
  pose proof (sort_by_start_perm l) as Hp.
  destruct (sort_by_start l) as [|cur rest] eqn:E.
  - apply Permutation_nil in Hp. subst. reflexivity.
  - rewrite (merge_from_covers _ _ _ Hs). split; apply covers_perm; [|symmetry]; exact Hp.
Qed.

Lemma merge_valid l : Forall valid_interval l -> Forall valid_interval (merge l).
Proof.
  intros Hv. rewrite merge_unfold.
  assert (Hv' : Forall valid_interval (sort_by_start l)).
  { rewrite Forall_forall in *. intros i Hi. apply Hv.
    eapply Permutation_in; [apply sort_by_start_perm | exact Hi]. }
  destruct (sort_by_start l); [constructor|].
  inversion Hv'; subst. now apply merge_from_valid.
Qed.


Lemma sorted_valid_strict l :
  StronglySorted (fun a b => start_le a b /\ apart a b) l ->
  Forall valid_interval l -> StronglySorted start_lt l.
Proof.
  induction 1 as [|a l Hs IH Ha]; intros Hv; constructor.
  - apply IH. now inversion Hv.
  - inversion Hv as [|? ? Hva _]; subst.
    eapply Forall_impl; [|exact Ha].
    unfold start_lt, apart, valid_interval in *. intros b [_ Hb]. lia.
Qed.

(** C2. For every list of intervals, each with start < end, in any order,
    the merge returns a list that is strictly ascending by start, in which
    every interval begins strictly after each earlier one is over (no
    overlap and no touching), whose intervals again have start < end, and
    which covers exactly the points the input covers. *)
Theorem merge_sorted_apart_same_points (l : list interval) :
  Forall valid_interval l ->
  StronglySorted start_lt (merge l) /\
  StronglySorted apart (merge l) /\
  Forall valid_interval (merge l) /\
  forall t, covers (merge l) t <-> covers l t.
Proof.
  intros Hv. repeat split.
  - apply sorted_valid_strict; [apply merge_sorted | now apply merge_valid].
  - apply merge_apart.
  - now apply merge_valid.
  - apply merge_covers.
  - apply merge_covers.
Qed.

Lemma merge_sorted_apart_same_points_witness :
  let l := [(5, 6); (1, 2); (2, 4); (10, 11); (3, 5)] in
  Forall valid_interval l /\
  merge l = [(1, 6); (10, 11)] /\
  StronglySorted start_lt (merge l) /\
  StronglySorted apart (merge l) /\
  Forall valid_interval (merge l) /\
  forall t, covers (merge l) t <-> covers l t.
Proof.
  intros l.
  assert (Hv : Forall valid_interval l) by (repeat constructor).
  split; [exact Hv|]. split; [reflexivity|].
  exact (merge_sorted_apart_same_points l Hv).
Defined.





(* ------------------------------------------------------------------ *)
(** ** The reservation                                                 *)
(* ------------------------------------------------------------------ *)

Lemma intersects_overlaps s e b : intersects s e b = true <-> overlaps s e b.
Proof.
  unfold intersects, overlaps. rewrite negb_true_iff, orb_false_iff.
  rewrite Z.leb_gt, Z.geb_leb, Z.leb_gt. reflexivity.
Qed.

Lemma intersects_not_overlaps s e b : intersects s e b = false <-> ~ overlaps s e b.
Proof.
  rewrite <- intersects_overlaps. destruct (intersects s e b); split; congruence.
Qed.

(** For non-empty ranges, [overlaps] says that they share a point. *)
Lemma overlaps_common_point s e b :
  s < e -> valid_interval b ->
  overlaps s e b <-> exists t, s <= t < e /\ inside t b.
Proof.
  unfold overlaps, valid_interval, inside. intros Hse Hb. split.
  - intros [H1 H2]. exists (Z.max s (fst b)). lia.
  - intros (t & H1 & H2). lia.
Qed.

Lemma find_first {A} (f : A -> bool) l :
  (exists j, In j l /\ f j = true) ->
  exists pre i post,
    l = pre ++ i :: post /\ Forall (fun p => f p = false) pre /\
    f i = true /\ find f l = Some i.
Proof.
  induction l as [|a l IH]; intros (j & Hj & Hf); [destruct Hj|].
  destruct (f a) eqn:Ea.
  - exists [], a, l. simpl. rewrite Ea. auto.
  - destruct IH as (pre & i & post & -> & Hpre & Hi & Hfind).
    { destruct Hj as [<-|Hj]; [congruence | eauto]. }
    exists (a :: pre), i, post. simpl. rewrite Ea. auto.
Qed.

Lemma find_none_iff {A} (f : A -> bool) l :
  find f l = None <-> forall x, In x l -> f x = false.
Proof.
  split; [apply find_none|].
  induction l as [|a l IH]; intros H; simpl; [reflexivity|].
  rewrite (H a) by (now left). apply IH. intros; apply H; now right.
Qed.

Lemma busy_empty_when_unavailable cal d :
  oracle_unavailable cal -> list_busy_intervals cal d = [].
Proof.
  unfold list_busy_intervals. intros [H|H].
  - now rewrite H.
  - destruct (cal_service cal); simpl; [now rewrite H | reflexivity].
Qed.

Lemma busy_nonempty_service cal d i :
  In i (list_busy_intervals cal d) -> cal_service cal = true.
Proof.
  unfold list_busy_intervals. destruct (cal_service cal); simpl; [reflexivity | tauto].
Qed.

Section Reservation.

Variable cal : calendar.
Variable b : booking.

Let start_dt := _dt_on (b_date b) (b_time b).
Let end_dt := start_dt + timedelta_minutes (_service_duration_minutes (b_service b)).
Let busy := list_busy_intervals cal (dt_date start_dt).

(** C3. With allow_overlap false, when the range [start, start+duration)
    overlaps a busy interval listed at commit time for the day of start,
    the reservation returns Conflict with the first such interval of the
    list, and makes no insert call. *)
Theorem conflict_carries_first_hit_no_insert :
  b_allow_overlap b = false ->
  (exists j, In j busy /\ overlaps start_dt end_dt j) ->
  exists pre i post,
    busy = pre ++ i :: post /\
    Forall (fun p => ~ overlaps start_dt end_dt p) pre /\
    overlaps start_dt end_dt i /\
    create_event_on_calendar cal b = (Conflict i, []).
Proof.
  intros Hno (j & Hj & Hov).
  pose proof (busy_nonempty_service _ _ _ Hj) as Hsvc.
  destruct (find_first (intersects start_dt end_dt) busy) as (pre & i & post & E & Hpre & Hi & Hfind).
  { exists j. split; [exact Hj | now apply intersects_overlaps]. }
  exists pre, i, post. split; [|split; [|split]].
  - exact E.
  - eapply Forall_impl; [|exact Hpre]. intros p. apply intersects_not_overlaps.
  - now apply intersects_overlaps.
  - unfold create_event_on_calendar. rewrite Hsvc, Hno. simpl.
    fold start_dt. fold end_dt. fold busy. now rewrite Hfind.
Qed.

(** C4. With allow_overlap true the reservation never returns Conflict;
    when it returns Created, the overlapped flag is set exactly when the
    range overlaps a busy interval; and it does return Created whenever
    the calendar is configured and accepts the event. *)
Theorem overlap_path_flags_never_conflicts :
  b_allow_overlap b = true ->
  is_conflict (fst (create_event_on_calendar cal b)) = false /\
  (forall eid link o,
      fst (create_event_on_calendar cal b) = Created eid link o ->
      (o = true <-> exists j, In j busy /\ overlaps start_dt end_dt j)) /\
  (forall eid link,
      cal_service cal = true ->
      events_insert cal (make_event_body b start_dt end_dt) = Some (eid, link) ->
      exists o, create_event_on_calendar cal b =
                (Created eid link o, [CalendarInsert (make_event_body b start_dt end_dt)])).
Proof.
  intros Hyes. unfold create_event_on_calendar, insert_event. rewrite Hyes.
  fold start_dt. fold end_dt. fold busy. simpl.
  destruct (cal_service cal); simpl.
  2:{ repeat split; try discriminate. }
  destruct (events_insert cal (make_event_body b start_dt end_dt)) as [[eid0 link0]|]; simpl.
  2:{ repeat split; try discriminate. }
  split; [reflexivity|]. split.
  - intros eid link o [= _ _ <-].
    destruct (find (intersects start_dt end_dt) busy) as [i|] eqn:Ef.
    + split; [intros _|reflexivity].
      apply find_some in Ef. exists i. now rewrite <- intersects_overlaps.
    + split; [discriminate|]. intros (j & Hj & Hov).
      rewrite find_none_iff in Ef. apply intersects_overlaps in Hov.
      rewrite (Ef _ Hj) in Hov. discriminate.
  - intros eid link _ [= <- <-]. eauto.
Qed.

(** C10. When the calendar is not configured, or every listing call on it
    fails, the reservation never returns Conflict, whatever the draft. *)
Theorem unavailable_oracle_never_conflicts :
  oracle_unavailable cal ->
  is_conflict (fst (create_event_on_calendar cal b)) = false.
Proof.
  intros Hun. unfold create_event_on_calendar, insert_event.
  rewrite (busy_empty_when_unavailable _ _ Hun). simpl.
  destruct (cal_service cal); simpl; [|reflexivity].
  destruct (b_allow_overlap b); simpl;
    destruct (events_insert cal _) as [[? ?]|]; reflexivity.
Qed.

End Reservation.

Lemma conflict_carries_first_hit_no_insert_witness :
  let cal := calendar_with [timed_event (at_clock 0 10 0 0) (at_clock 0 11 0 0)] in
  let b := sample_draft 0 (10, 30) false in
  let start_dt := _dt_on (b_date b) (b_time b) in
  let end_dt := start_dt + timedelta_minutes (_service_duration_minutes (b_service b)) in
  let busy := list_busy_intervals cal (dt_date start_dt) in
  busy = [(at_clock 0 9 45 0, at_clock 0 11 15 0)] /\
  exists pre i post,
    busy = pre ++ i :: post /\
    Forall (fun p => ~ overlaps start_dt end_dt p) pre /\
    overlaps start_dt end_dt i /\
    create_event_on_calendar cal b = (Conflict i, []).
Proof.
  intros cal b start_dt end_dt busy.
  split; [vm_compute; reflexivity|].
  apply (conflict_carries_first_hit_no_insert cal b).
  - reflexivity.
  - exists (at_clock 0 9 45 0, at_clock 0 11 15 0). vm_compute. intuition congruence.
Defined.

Lemma overlap_path_flags_never_conflicts_witness :
  let cal := calendar_with [timed_event (at_clock 0 10 0 0) (at_clock 0 11 0 0)] in
  let b := sample_draft 0 (10, 30) true in
  is_conflict (fst (create_event_on_calendar cal b)) = false /\
  fst (create_event_on_calendar cal b) =
    Created "evt1" "https://calendar.example/evt1" true.
Proof.
  intros cal b.
  split; [|vm_compute; reflexivity].
  apply (overlap_path_flags_never_conflicts cal b). reflexivity.
Defined.

Lemma unavailable_oracle_never_conflicts_witness :
  is_conflict (fst (create_event_on_calendar calendar_down (sample_draft 0 (10, 30) false)))
    = false.
Proof.
  apply (unavailable_oracle_never_conflicts calendar_down (sample_draft 0 (10, 30) false)).
  right. intros a b. reflexivity.
Defined.

(* ------------------------------------------------------------------ *)
(** ** Confirmation with the calendar out of reach                     *)
(* ------------------------------------------------------------------ *)

Lemma bind_eq {A B} (m : IO A) (k : A -> IO B) :
  bind m k = (fst (k (fst m)), snd m ++ snd (k (fst m))).
Proof. unfold bind. destruct m as [a l1]. simpl. now destruct (k a). Qed.

Lemma unreachable_gives_unavailable cal b :
  oracle_unreachable cal ->
  fst (create_event_on_calendar cal b) = Unavailable /\
  forall e, In e (snd (create_event_on_calendar cal b)) ->
            exists body, e = CalendarInsert body.
Proof.
  intros Hun.
  assert (Hbusy : forall d, list_busy_intervals cal d = []).
  { intros d. apply busy_empty_when_unavailable.
    destruct Hun as [H|[H _]]; [now left | now right]. }
  unfold create_event_on_calendar, insert_event. rewrite Hbusy. simpl.
  destruct Hun as [H|[_ H]].
  - rewrite H. simpl. split; [reflexivity | intros e []].
  - destruct (cal_service cal); simpl; [|split; [reflexivity | intros e []]].
    destruct (b_allow_overlap b); simpl; rewrite H; simpl;
      (split; [reflexivity | intros e [<-|[]]; eauto]).
Qed.

(** C5, with the sheet as the code has it.  When the calendar is out of
    reach at submission (no handle, or every call on it raises), the
    reservation returns Unavailable, which is not Conflict, and the
    confirming step ends the conversation having
    appended the booking to the bookings CSV with empty event id and link,
    having appended the same to the sheet when the sheet is reachable, and
    having shown the thanks text followed by the note that the calendar is
    out of service. *)
Theorem unreachable_oracle_booking_still_recorded
    (e : env) (now : datetime) (ts username : string) (draft : booking) :
  oracle_unreachable (env_cal e) ->
  let b := set_stamp draft ts username in
  let out := book_confirm e now ts username book_send draft in
  fst (create_event_on_calendar (env_cal e) b) = Unavailable /\
  is_conflict (fst (create_event_on_calendar (env_cal e) b)) = false /\
  fst out = (conversation_END, None) /\
  In (CsvAppend (mk_csv_row ts username (b_name draft) (b_phone draft)
        (b_service draft) (b_date draft) (b_time draft) (b_notes draft) "" ""))
     (snd out) /\
  (env_gsheet e = true ->
   In (SheetAppend (mk_sheet_row (b_name draft) (at_username username)
         (b_phone draft) (b_service draft) (_service_price (b_service draft))
         (b_date draft) (b_time draft)
         (_service_duration_minutes (b_service draft)) (b_notes draft) ts "" ""))
      (snd out)) /\
  In (EditMessage (thanks_text ++ calendar_note_text) main_menu_keyboard) (snd out).
Proof.
  intros Hun b out.
  destruct (unreachable_gives_unavailable (env_cal e) b Hun) as [Hr _].
  split; [exact Hr|]. split; [now rewrite Hr|].
  subst out. unfold book_confirm. fold b.
  destruct (create_event_on_calendar (env_cal e) b) as [r log] eqn:Ec.
  simpl in Hr. subst r. rewrite !bind_eq. cbn [fst snd].
  split; [reflexivity|]. rewrite !in_app_iff. split; [|split].
  - right. left. simpl. now left.
  - intros Hg. right. right. left.
    unfold append_gsheet_row. rewrite Hg. simpl. now left.
  - right. right. right. right. left. simpl. now left.
Qed.

Lemma unreachable_oracle_booking_still_recorded_witness :
  let e := mk_env calendar_down true [1001] in
  let out := book_confirm e 0 "2025-10-05T09:00:00" "anna" book_send
               (sample_draft 0 (10, 30) false) in
  fst out = (conversation_END, None) /\
  In (CsvAppend (mk_csv_row "2025-10-05T09:00:00" "anna" "Anna" "+70000000000"
        styling 0 (10, 30) "" "" "")) (snd out) /\
  In (EditMessage (thanks_text ++ calendar_note_text) main_menu_keyboard) (snd out).
Proof.
  intros e out.
  destruct (unreachable_oracle_booking_still_recorded e 0 "2025-10-05T09:00:00" "anna"
              (sample_draft 0 (10, 30) false)) as (_ & _ & H1 & H2 & _ & H3).
  - right. split; intros ?; reflexivity.
  - exact (conj H1 (conj H2 H3)).
Defined.

(** C5 as stated fails for the sheet.  The sheet is reached through the
    same key file as the calendar: with that file missing neither is
    configured, the calendar is out of reach, and the confirming step
    appends no row to the sheet, which append_gsheet_row skips in silence
    when the sheet is not set up.  The CSV row is written all the same. *)
Lemma unreachable_oracle_sheet_row_missing :
  let e := mk_env calendar_off false [1001] in
  let draft := sample_draft 0 (10, 30) false in
  let out := book_confirm e 0 "2025-10-05T09:00:00" "anna" book_send draft in
  oracle_unreachable (env_cal e) /\
  fst out = (conversation_END, None) /\
  In (CsvAppend (mk_csv_row "2025-10-05T09:00:00" "anna" "Anna" "+70000000000"
        styling 0 (10, 30) "" "" "")) (snd out) /\
  ~ exists row, In (SheetAppend row) (snd out).
Proof.
  intros e draft out.
  split; [now left|]. split; [reflexivity|]. split; [now left|].
  intros [row H]. vm_compute in H.
  repeat (destruct H as [H|H]; [discriminate H|]). exact H.
Qed.

(* ------------------------------------------------------------------ *)
(** ** Clock arithmetic                                                *)
(* ------------------------------------------------------------------ *)

Ltac clock :=
  unfold day_start_of, day_end_of, _dt_on, WORK_START, WORK_END, STEP,
    timedelta_minutes, timedelta_days, SLOT_STEP_MIN, BUFFER_MIN,
    strftime_HM, dt_hour, dt_minute, dt_date, replace_second0,
    DAY, HOUR, MINUTE, SECOND in *;
  simpl fst in *; simpl snd in *.

Ltac clock_lia := clock; Z.div_mod_to_equations; lia.

Lemma day_window d : day_start_of d < day_end_of d.
Proof. clock_lia. Qed.

Lemma day_window_in_day d t :
  day_start_of d <= t <= day_end_of d -> d * DAY <= t < (d + 1) * DAY.
Proof. clock_lia. Qed.

Lemma day_start_on_step d : dt_minute (day_start_of d) mod SLOT_STEP_MIN = 0.
Proof. clock_lia. Qed.

Lemma day_end_is_WORK_END d : strftime_HM (day_end_of d) = WORK_END.
Proof. clock. f_equal; Z.div_mod_to_equations; lia. Qed.

(** Inside a day's working window only the day end prints as WORK_END. *)
Lemma WORK_END_only_at_day_end d t :
  day_start_of d <= t <= day_end_of d ->
  strftime_HM t = WORK_END -> t = day_end_of d.
Proof. intros Ht H. clock. injection H as Hh Hm. Z.div_mod_to_equations; lia. Qed.

(** A whole-minute instant of day [d] is recovered from its "%H:%M". *)
Lemma dt_on_strftime d t :
  d * DAY <= t < (d + 1) * DAY -> t mod MINUTE = 0 ->
  _dt_on d (strftime_HM t) = t.
Proof. intros Ht Hm. clock_lia. Qed.

Lemma dt_date_in_day d t : d * DAY <= t < (d + 1) * DAY -> dt_date t = d.
Proof. intros Ht. clock_lia. Qed.

Lemma first_candidate_ge fs : fs <= first_candidate fs.
Proof.
  unfold first_candidate.
  destruct (dt_minute fs mod SLOT_STEP_MIN =? 0); cbn [negb]; [lia|].
  clock_lia.
Qed.

Lemma hhmm_eqb_eq a b : hhmm_eqb a b = true <-> a = b.
Proof.
  unfold hhmm_eqb. destruct a as [h m], b as [h' m']. simpl.
  rewrite andb_true_iff, !Z.eqb_eq. split; [intros [-> ->] | intros [= -> ->]]; auto.
Qed.

(* ------------------------------------------------------------------ *)
(** ** sorted(set(...))                                                *)
(* ------------------------------------------------------------------ *)

Lemma insert_unique_In x l t : In t (insert_unique x l) <-> t = x \/ In t l.
Proof.
  induction l as [|y l IH]; simpl; [intuition|].
  destruct (Z.ltb_spec x y); [simpl; intuition|].
  destruct (Z.eqb_spec x y); simpl; [subst; intuition|].
  rewrite IH. intuition.
Qed.

Lemma sorted_set_In l t : In t (sorted_set l) <-> In t l.
Proof.
  induction l as [|x l IH]; simpl; [reflexivity|].
  rewrite insert_unique_In, IH. intuition.
Qed.

Lemma insert_unique_sorted x l :
  StronglySorted Z.lt l -> StronglySorted Z.lt (insert_unique x l).
Proof.
  induction 1 as [|y l Hs IH Hy]; simpl; [repeat constructor|].
  destruct (Z.ltb_spec x y).
  - constructor; [now constructor|]. constructor; [assumption|].
    eapply Forall_impl; [|exact Hy]. intros; lia.
  - destruct (Z.eqb_spec x y); [now constructor|].
    constructor; [exact IH|].
    apply Forall_forall. intros t Ht. apply insert_unique_In in Ht.
    destruct Ht as [->|Ht]; [lia|]. rewrite Forall_forall in Hy. auto.
Qed.

Lemma sorted_set_sorted l : StronglySorted Z.lt (sorted_set l).
Proof.
  induction l; simpl; [constructor | now apply insert_unique_sorted].
Qed.

Lemma sorted_lt_NoDup l : StronglySorted Z.lt l -> NoDup l.
Proof.
  induction 1 as [|x l Hs IH Hx]; constructor; [|exact IH].
  intros Hin. rewrite Forall_forall in Hx. specialize (Hx _ Hin). lia.
Qed.

(* ------------------------------------------------------------------ *)
(** ** The candidate loop                                              *)
(* ------------------------------------------------------------------ *)

Lemma offer_In now need fe cur slots t :
  cur <= fe ->
  In t (offer now need fe cur slots) <->
  In t slots \/ (t = cur /\ offerable now need fe cur).
Proof.
  intros Hle. unfold offer, offerable.
  destruct (Z.gtb_spec cur now) as [Hn|Hn].
  2:{ intuition lia. }
  destruct (Z.ltb_spec cur fe) as [Hf|Hf].
  - destruct (Z.leb_spec (cur + need) fe) as [Hd|Hd].
    + rewrite in_app_iff. simpl. intuition lia.
    + intuition lia.
  - destruct (hhmm_eqb (strftime_HM fe) WORK_END) eqn:E.
    + apply hhmm_eqb_eq in E. rewrite in_app_iff. simpl.
      intuition (try lia).
    + assert (strftime_HM fe <> WORK_END).
      { intros H. apply hhmm_eqb_eq in H. congruence. }
      intuition lia.
Qed.

Lemma stepped_from_next cur t :
  stepped_from cur t <-> t = cur \/ stepped_from (cur + STEP) t.
Proof.
  unfold stepped_from. split.
  - intros (k & Hk & ->). destruct (Z.eq_dec k 0) as [->|Hne]; [left; lia|].
    right. exists (k - 1). split; [lia|]. clock. lia.
  - intros [->|(k & Hk & ->)]; [exists 0; lia|].
    exists (k + 1). split; [lia|]. clock. lia.
Qed.

Lemma stepped_from_ge cur t : stepped_from cur t -> cur <= t.
Proof. intros (k & Hk & ->). clock. lia. Qed.

(** With fuel for every turn, the loop offers exactly the offerable
    candidates reached from [cur] in whole steps that are not past [fe]. *)
Lemma slot_while_In fuel now need fe cur slots t :
  fe < cur + (Z.of_nat fuel - 1) * STEP ->
  In t (slot_while fuel now need STEP fe cur slots) <->
  In t slots \/ (stepped_from cur t /\ t <= fe /\ offerable now need fe t).
Proof.
  revert cur slots. induction fuel as [|fuel IH]; intros cur slots Hfuel.
  - simpl. split; [auto|]. intros [H|(Hs & Hle & _)]; [exact H|].
    apply stepped_from_ge in Hs. clock. lia.
  - cbn [slot_while]. destruct (Z.leb_spec cur fe) as [Hle|Hgt].
    + rewrite IH by (clock; lia).
      rewrite offer_In by exact Hle.
      rewrite (stepped_from_next cur t). split.
      * intros [[H|[-> Ho]]|(Hs & Ht & Ho)]; auto.
      * intros [H|([->|Hs] & Ht & Ho)]; auto.
    + split; [auto|]. intros [H|(Hs & Ht & _)]; [exact H|].
      apply stepped_from_ge in Hs. lia.
Qed.

Lemma while_fuel_enough fe cur :
  fe < cur + (Z.of_nat (while_fuel STEP fe cur) - 1) * STEP.
Proof. unfold while_fuel. clock_lia. Qed.

(** More fuel than [while_fuel] changes nothing: the loop leaves through
    its own test. *)
Lemma slot_while_fuel_irrelevant fuel extra now need fe cur slots :
  fe < cur + (Z.of_nat fuel - 1) * STEP ->
  slot_while (fuel + extra) now need STEP fe cur slots =
  slot_while fuel now need STEP fe cur slots.
Proof.
  revert cur slots. induction fuel as [|fuel IH]; intros cur slots Hfuel.
  - destruct extra; [reflexivity|]. cbn [Nat.add slot_while].
    destruct (Z.leb_spec cur fe); [clock; lia | reflexivity].
  - cbn [Nat.add slot_while]. destruct (Z.leb_spec cur fe); [|reflexivity].
    apply IH. clock. lia.
Qed.

(** The bound that [slots_of_interval] passes is never reached. *)
Lemma slots_of_interval_total extra now need slots fs fe :
  slot_while (while_fuel STEP fe (first_candidate fs) + extra) now need STEP fe
    (first_candidate fs) slots =
  slots_of_interval now need STEP slots (fs, fe).
Proof. apply slot_while_fuel_irrelevant, while_fuel_enough. Qed.

Lemma slots_of_interval_In now need slots f t :
  In t (slots_of_interval now need STEP slots f) <->
  In t slots \/
  (stepped_from (first_candidate (fst f)) t /\ t <= snd f /\ offerable now need (snd f) t).
Proof.
  destruct f as [fs fe]. unfold slots_of_interval. cbn [fst snd].
  apply slot_while_In, while_fuel_enough.
Qed.

Lemma fold_slots_In now need free slots t :
  In t (fold_left (slots_of_interval now need STEP) free slots) <->
  In t slots \/
  exists f, In f free /\ stepped_from (first_candidate (fst f)) t /\
            t <= snd f /\ offerable now need (snd f) t.
Proof.
  revert slots. induction free as [|f free IH]; intros slots; simpl.
  - split; [auto|]. intros [H|(f & [] & _)]. exact H.
  - rewrite IH, slots_of_interval_In. split.
    + intros [[H|H]|(g & Hg & H)]; eauto 6.
    + intros [H|(g & [<-|Hg] & H)]; eauto 6.
Qed.

(* ------------------------------------------------------------------ *)
(** ** The free intervals of the working window                        *)
(* ------------------------------------------------------------------ *)

Lemma free_loop_acc busy ds de cursor free :
  free_loop busy ds de cursor free =
  (free ++ fst (free_loop busy ds de cursor []), snd (free_loop busy ds de cursor [])).
Proof.
  revert cursor free. induction busy as [|[bs be] busy IH]; intros cursor free.
  - simpl. now rewrite app_nil_r.
  - cbn [free_loop].
    destruct ((be <=? ds) || (bs >=? de)); [apply IH|].
    destruct (bs >? cursor); cbn [app].
    + destruct (Z.max cursor be >=? de); [reflexivity|].
      rewrite (IH _ (free ++ _)), (IH _ [_]). now rewrite <- app_assoc.
    + destruct (Z.max cursor be >=? de); [simpl; now rewrite app_nil_r|].
      apply IH.
Qed.

Lemma free_loop_spec busy ds de cursor :
  StronglySorted start_le busy -> ds <= cursor ->
  cursor <= snd (free_loop busy ds de cursor []) /\
  (forall f, In f (fst (free_loop busy ds de cursor [])) ->
     cursor <= fst f /\ fst f < snd f /\ snd f <= de /\ clear_of busy f) /\
  (snd (free_loop busy ds de cursor []) < de ->
     forall b, In b busy ->
       snd b <= snd (free_loop busy ds de cursor []) \/ de <= fst b).
Proof.
  intros Hs. revert cursor.
  induction Hs as [|[bs be] busy Hs IH Hhd]; intros cursor Hc.
  - simpl. split; [lia|]. split; [intros f []|intros _ b []].
  - cbn [free_loop]. rewrite Forall_forall in Hhd. unfold start_le in Hhd.
    destruct (Z.leb_spec be ds) as [H1|H1]; cbn [orb].
    { destruct (IH cursor Hc) as (A & B & C). split; [exact A|]. split.
      - intros f Hf. destruct (B f Hf) as (B1 & B2 & B3 & B4).
        repeat split; try assumption.
        intros b [<-|Hb]; [simpl; lia | auto].
      - intros Hlt b [<-|Hb]; [simpl; lia | auto]. }
    destruct (Z.geb_spec bs de) as [H2|H2].
    { destruct (IH cursor Hc) as (A & B & C). split; [exact A|]. split.
      - intros f Hf. destruct (B f Hf) as (B1 & B2 & B3 & B4).
        repeat split; try assumption.
        intros b [<-|Hb]; [simpl; lia | auto].
      - intros Hlt b [<-|Hb]; [simpl; lia | auto]. }
    assert (Hgap : forall f : interval, (bs > cursor /\ f = (cursor, Z.min bs de)) ->
              cursor <= fst f /\ fst f < snd f /\ snd f <= de /\
              clear_of ((bs, be) :: busy) f).
    { intros f [Hgt ->]. simpl. repeat split; try lia.
      intros b [<-|Hb]; simpl; [lia|]. specialize (Hhd _ Hb). simpl in Hhd. lia. }
    assert (Hrest : forall (f : interval) c, cursor <= c -> be <= c ->
              (c <= fst f /\ fst f < snd f /\ snd f <= de /\ clear_of busy f) ->
              cursor <= fst f /\ fst f < snd f /\ snd f <= de /\
              clear_of ((bs, be) :: busy) f).
    { intros f c Hcc Hbe (B1 & B2 & B3 & B4). repeat split; try lia.
      intros b [<-|Hb]; [simpl; lia | auto]. }
    destruct (IH (Z.max cursor be) ltac:(lia)) as (A & B & C).
    destruct (Z.gtb_spec bs cursor) as [Hgt|Hle]; cbn [app];
      destruct (Z.geb_spec (Z.max cursor be) de) as [Hbr|Hbr]; cbn [fst snd].
    + split; [lia|]. split; [|lia].
      intros f [<-|[]]. apply Hgap. split; [lia | reflexivity].
    + rewrite free_loop_acc. cbn [fst snd]. split; [lia|]. split.
      * intros f [<-|Hf]; [apply Hgap; split; [lia | reflexivity]|].
        apply (Hrest f (Z.max cursor be)); [lia | lia | auto].
      * intros Hlt b [<-|Hb]; [simpl; lia | auto].
    + split; [lia|]. split; [intros f []|lia].
    + split; [lia|]. split.
      * intros f Hf. apply (Hrest f (Z.max cursor be)); [lia | lia | auto].
      * intros Hlt b [<-|Hb]; [simpl; lia | auto].
Qed.

Lemma free_intervals_spec busy ds de f :
  StronglySorted start_le busy ->
  In f (free_intervals busy ds de) ->
  ds <= fst f /\ fst f < snd f /\ snd f <= de /\ clear_of busy f.
Proof.
  intros Hs. unfold free_intervals.
  destruct (free_loop_spec busy ds de ds Hs (Z.le_refl _)) as (A & B & C).
  destruct (free_loop busy ds de ds []) as [free cursor]. cbn [fst snd] in *.
  destruct (Z.ltb_spec cursor de) as [Hlt|Hge]; [|apply B].
  rewrite in_app_iff. intros [Hf|[<-|[]]]; [now apply B|].
  simpl. repeat split; try lia.
  intros b Hb. simpl. destruct (C Hlt b Hb); lia.
Qed.

Lemma free_intervals_nil ds de : ds < de -> free_intervals [] ds de = [(ds, de)].
Proof.
  intros H. unfold free_intervals. simpl.
  destruct (Z.ltb_spec ds de); [reflexivity | lia].
Qed.

Lemma list_busy_sorted cal d : StronglySorted start_le (list_busy_intervals cal d).
Proof.
  unfold list_busy_intervals.
  destruct (cal_service cal); simpl; [|constructor].
  destruct (events_list cal _ _); [apply merge_start_sorted | constructor].
Qed.

(* ------------------------------------------------------------------ *)
(** ** compute_free_slots_for_date                                     *)
(* ------------------------------------------------------------------ *)

Lemma compute_unfold cal now d need :
  compute_free_slots_for_date cal now d need =
  sorted_set
    (fold_left (slots_of_interval now (timedelta_minutes need) STEP)
       (free_intervals (list_busy_intervals cal d) (day_start_of d) (day_end_of d))
       []).
Proof.
  unfold compute_free_slots_for_date. fold (day_start_of d). fold (day_end_of d).
  pose proof (day_window d).
  destruct (Z.leb_spec (day_end_of d) (day_start_of d)); [lia | reflexivity].
Qed.

(** What the function returns, in terms of the free intervals it builds:
    a strictly ascending list of the offerable candidates of those
    intervals. *)
Lemma compute_free_slots_In cal now d need t :
  In t (compute_free_slots_for_date cal now d need) <->
  exists f,
    In f (free_intervals (list_busy_intervals cal d) (day_start_of d) (day_end_of d)) /\
    stepped_from (first_candidate (fst f)) t /\ t <= snd f /\
    offerable now (timedelta_minutes need) (snd f) t.
Proof.
  rewrite compute_unfold, sorted_set_In, fold_slots_In. simpl. tauto.
Qed.

Lemma compute_free_slots_sorted cal now d need :
  StronglySorted Z.lt (compute_free_slots_for_date cal now d need).
Proof. rewrite compute_unfold. apply sorted_set_sorted. Qed.

Lemma first_candidate_day_start d : first_candidate (day_start_of d) = day_start_of d.
Proof. unfold first_candidate. now rewrite day_start_on_step. Qed.

(** C7, as the code has it.  On a day with no busy interval the function
    returns, in strictly ascending order, exactly the instants reached
    from workStart+buffer in whole steps, up to workEnd, that are strictly
    later than now and that either are workEnd itself or leave room for
    the service before workEnd. *)
Theorem empty_day_offers_fitting_grid
    (cal : calendar) (now : datetime) (d : date_cls) (need : Z) :
  list_busy_intervals cal d = [] ->
  StronglySorted Z.lt (compute_free_slots_for_date cal now d need) /\
  forall t,
    In t (compute_free_slots_for_date cal now d need) <->
    stepped_from (day_start_of d) t /\ t <= day_end_of d /\ now < t /\
    (t = day_end_of d \/ t + timedelta_minutes need <= day_end_of d).
Proof.
  intros Hbusy. split; [apply compute_free_slots_sorted|]. intros t.
  rewrite compute_free_slots_In, Hbusy, (free_intervals_nil _ _ (day_window d)).
  pose proof (day_end_is_WORK_END d) as HW.
  unfold offerable. split.
  - intros (f & [<-|[]] & Hs & Hle & Hnow & Hfit). cbn [fst snd] in *.
    rewrite first_candidate_day_start in Hs. intuition.
  - intros (Hs & Hle & Hnow & Hfit). exists (day_start_of d, day_end_of d).
    cbn [fst snd]. rewrite first_candidate_day_start.
    split; [now left|]. split; [exact Hs|]. split; [exact Hle|].
    split; [exact Hnow|].
    destruct (Z.eq_dec t (day_end_of d)); [right; auto | left; lia].
Qed.

Lemma empty_day_offers_fitting_grid_witness :
  let out := compute_free_slots_for_date calendar_off (at_clock 0 7 0 0) 0 60 in
  StronglySorted Z.lt out /\
  (In (at_clock 0 18 0 0) out <->
   stepped_from (day_start_of 0) (at_clock 0 18 0 0) /\
   at_clock 0 18 0 0 <= day_end_of 0 /\ at_clock 0 7 0 0 < at_clock 0 18 0 0 /\
   (at_clock 0 18 0 0 = day_end_of 0 \/
    at_clock 0 18 0 0 + timedelta_minutes 60 <= day_end_of 0)).
Proof.
  intros out.
  destruct (empty_day_offers_fitting_grid calendar_off (at_clock 0 7 0 0) 0 60)
    as [Hs Hin]; [reflexivity|].
  split; [exact Hs | exact (Hin (at_clock 0 18 0 0))].
Defined.

(** C7 as stated fails: 17:15 is a grid point of the window and lies in
    the future, but a 60-minute service started then would end after
    workEnd, and the function leaves it out. *)
Lemma empty_day_grid_point_omitted :
  let now := at_clock 0 7 0 0 in
  let t := at_clock 0 17 15 0 in
  list_busy_intervals calendar_off 0 = [] /\
  ~ (In t (compute_free_slots_for_date calendar_off now 0 60) <->
     stepped_from (day_start_of 0) t /\ t <= day_end_of 0 /\ now < t).
Proof.
  intros now t. split; [reflexivity|]. intros [_ H].
  assert (Hin : In t (compute_free_slots_for_date calendar_off now 0 60)).
  { apply H. split; [exists 36|]; vm_compute; intuition congruence. }
  vm_compute in Hin.
  repeat (destruct Hin as [Hin|Hin]; [discriminate Hin|]). exact Hin.
Qed.

(** C6, as the code has it.  A slot listed for a day and a service, other
    than the slot at the day-end boundary, and falling on a whole minute,
    is committed with allow_overlap false against the same calendar
    without a Conflict. *)
Theorem listed_slot_commits_without_conflict
    (cal : calendar) (now : datetime) (d : date_cls) (draft : booking)
    (slot : datetime) :
  In slot (compute_free_slots_for_date cal now d
             (_service_duration_minutes (b_service draft))) ->
  slot <> day_end_of d ->
  slot mod MINUTE = 0 ->
  is_conflict
    (fst (create_event_on_calendar cal (time_pick_from_slots draft d slot))) = false.
Proof.
  intros Hin Hne Hmin.
  apply compute_free_slots_In in Hin as (f & Hf & Hstep & Hle & Hoff).
  apply free_intervals_spec in Hf as (F1 & F2 & F3 & F4); [|apply list_busy_sorted].
  pose proof (first_candidate_ge (fst f)) as Hfc.
  apply stepped_from_ge in Hstep.
  assert (Hwin : day_start_of d <= slot <= day_end_of d) by lia.
  destruct Hoff as (_ & [[Hlt Hfit]|[Heq HW]]).
  2:{ exfalso. apply Hne. rewrite Heq.
      apply WORK_END_only_at_day_end; [lia | exact HW]. }
  pose proof (day_window_in_day d slot Hwin) as Hday.
  unfold create_event_on_calendar, time_pick_from_slots, insert_event.
  cbn [b_service b_date b_time b_allow_overlap negb].
  rewrite (dt_on_strftime d slot Hday Hmin), (dt_date_in_day d slot Hday).
  destruct (cal_service cal); cbn [negb]; [|reflexivity].
  rewrite (proj2 (find_none_iff _ _)).
  - cbn [bind tell ret fst snd].
    destruct (events_insert cal _) as [[eid link]|]; reflexivity.
  - intros b Hb. apply intersects_not_overlaps. unfold overlaps.
    destruct (F4 b Hb); lia.
Qed.

Lemma listed_slot_commits_without_conflict_witness :
  let cal := calendar_with [timed_event (at_clock 0 10 0 0) (at_clock 0 11 0 0)] in
  let draft := sample_draft 0 (0, 0) true in
  is_conflict
    (fst (create_event_on_calendar cal
            (time_pick_from_slots draft 0 (at_clock 0 11 15 0)))) = false.
Proof.
  intros cal draft.
  apply (listed_slot_commits_without_conflict cal (at_clock 0 7 0 0) 0 draft
           (at_clock 0 11 15 0)).
  - vm_compute. intuition congruence.
  - vm_compute. congruence.
  - reflexivity.
Defined.

(** C6 as stated fails at the day-end slot: with an event from 18:30 the
    busy list of the day holds [18:15, 19:45); 18:00 is still listed for a
    60-minute service, and committing it meets that interval. *)
Lemma day_end_slot_can_conflict :
  let cal := calendar_with [timed_event (at_clock 0 18 30 0) (at_clock 0 19 30 0)] in
  let draft := sample_draft 0 (0, 0) true in
  let slot := at_clock 0 18 0 0 in
  ~ (In slot (compute_free_slots_for_date cal (at_clock 0 7 0 0) 0
                (_service_duration_minutes (b_service draft))) ->
     is_conflict
       (fst (create_event_on_calendar cal (time_pick_from_slots draft 0 slot))) = false).
Proof.
  intros cal draft slot H.
  assert (Hc : is_conflict
            (fst (create_event_on_calendar cal (time_pick_from_slots draft 0 slot))) = true)
    by (vm_compute; reflexivity).
  rewrite H in Hc; [discriminate Hc|].
  vm_compute. intuition congruence.
Qed.

(* ------------------------------------------------------------------ *)
(** ** Nearest free days                                               *)
(* ------------------------------------------------------------------ *)

Lemma offered_days_app r1 r2 : offered_days (r1 ++ r2) = offered_days r1 ++ offered_days r2.
Proof.
  induction r1 as [|[d n| |a] r1 IH]; simpl; [reflexivity| |exact IH|exact IH].
  now rewrite IH.
Qed.

(** What one run of the search loop adds: day buttons only, one per day
    found, each for a day after [d] and at most 31 days after the anchor,
    labelled with the positive number of its slots; [found] counts them
    and does not pass 7. *)
Lemma nearest_loop_spec fuel cal now anchor minutes d found rows :
  found <= 7 ->
  exists new,
    nearest_loop fuel cal now anchor minutes d found rows =
      (rows ++ new, found + Z.of_nat (List.length new)) /\
    found + Z.of_nat (List.length new) <= 7 /\
    Forall (fun b => exists d' n,
                b = DayButton d' n /\ d < d' <= anchor + 31 /\
                n = List.length (compute_free_slots_for_date cal now d' minutes) /\
                (0 < n)%nat) new.
Proof.
  revert d found rows. induction fuel as [|fuel IH]; intros d found rows Hf.
  - exists []. simpl. rewrite app_nil_r, Z.add_0_r. auto.
  - cbn [nearest_loop]. unfold timedelta_days.
    destruct (Z.ltb_spec found 7) as [H7|H7]; cbn [andb].
    2:{ exists []. simpl. rewrite app_nil_r, Z.add_0_r. auto. }
    destruct (Z.leb_spec d (anchor + 30)) as [Hd|Hd].
    2:{ exists []. simpl. rewrite app_nil_r, Z.add_0_r. auto. }
    destruct (compute_free_slots_for_date cal now (d + 1) minutes) as [|s0 rest] eqn:E.
    + destruct (IH (d + 1) found rows Hf) as (new & -> & Hc & Hall).
      exists new. repeat split; auto.
      eapply Forall_impl; [|exact Hall].
      intros b (d' & n & -> & Hd' & Hn). exists d', n. repeat split; try tauto; lia.
    + destruct (IH (d + 1) (found + 1)
                  (rows ++ [DayButton (d + 1) (List.length (s0 :: rest))]) ltac:(lia))
        as (new & -> & Hc & Hall).
      exists (DayButton (d + 1) (List.length (s0 :: rest)) :: new).
      rewrite <- app_assoc. cbn [app]. split; [|split].
      * f_equal. cbn [List.length]. lia.
      * cbn [List.length] in *. lia.
      * constructor.
        -- exists (d + 1), (List.length (s0 :: rest)). rewrite E.
           repeat split; try lia. simpl. lia.
        -- eapply Forall_impl; [|exact Hall].
           intros b (d' & n & -> & Hd' & Hn). exists d', n.
           repeat split; try tauto; lia.
Qed.

(** The search loop leaves through its own test within [nearest_fuel]
    turns: more fuel gives the same rows. *)
Lemma nearest_loop_fuel_irrelevant fuel extra cal now anchor minutes d found rows :
  anchor + 31 - d < Z.of_nat fuel ->
  nearest_loop (fuel + extra) cal now anchor minutes d found rows =
  nearest_loop fuel cal now anchor minutes d found rows.
Proof.
  revert d found rows. induction fuel as [|fuel IH]; intros d found rows Hfuel.
  - destruct extra; [reflexivity|]. cbn [Nat.add nearest_loop]. unfold timedelta_days.
    destruct (Z.leb_spec d (anchor + 30)); [lia|]. now rewrite andb_false_r.
  - cbn [Nat.add nearest_loop]. unfold timedelta_days.
    destruct ((found <? 7) && (d <=? anchor + 30)); [|reflexivity].
    destruct (compute_free_slots_for_date cal now (d + 1) minutes);
      apply IH; lia.
Qed.

Lemma nearest_fuel_enough extra cal now anchor minutes :
  nearest_loop (nearest_fuel + extra) cal now anchor minutes anchor 0 [] =
  nearest_loop nearest_fuel cal now anchor minutes anchor 0 [].
Proof. apply nearest_loop_fuel_irrelevant. unfold nearest_fuel. lia. Qed.

(** The part of C9 that the code keeps: at most 7 days are offered, each
    strictly after the anchor and with a non-empty list of slots; the
    latest day that can be offered is 31 days after the anchor. *)
Lemma nearest_free_days_offer cal now anchor minutes :
  let kb := nearest_free_days_keyboard cal now anchor minutes in
  (List.length (offered_days kb) <= 7)%nat /\
  forall d, In d (offered_days kb) ->
    anchor < d <= anchor + 31 /\
    compute_free_slots_for_date cal now d minutes <> [].
Proof.
  unfold nearest_free_days_keyboard.
  destruct (nearest_loop_spec nearest_fuel cal now anchor minutes anchor 0 []
              ltac:(lia)) as (new & -> & Hc & Hall).
  cbn [app]. cbv zeta.
  assert (Hod : forall tail, offered_days tail = [] ->
            offered_days ((if 0 + Z.of_nat (List.length new) =? 0
                           then new ++ [NoFreeDaysButton] else new) ++ tail)
            = offered_days new).
  { intros tail Ht. destruct (_ =? 0); rewrite !offered_days_app, Ht; simpl;
      now rewrite !app_nil_r. }
  rewrite Hod by reflexivity. clear Hod. split.
  - assert (List.length (offered_days new) <= List.length new)%nat; [|lia].
    clear. induction new as [|[d n| |a] new IH]; simpl; lia.
  - intros d Hd. induction Hall as [|b new (d' & n & -> & Hd' & Hn & Hpos) Hall IH].
    + destruct Hd.
    + simpl in Hd, Hc. destruct Hd as [<-|Hd].
      * split; [lia|]. intros E. rewrite E in Hn. simpl in Hn. lia.
      * apply IH; [lia | exact Hd].
Qed.

(** C9 at an anchor followed by thirty blocked days: the search goes on to
    the day 31 days after the anchor and offers it. *)
Theorem nearest_search_reaches_day_31 :
  let cal := calendar_with [block_days 1 31] in
  let now := at_clock 0 19 0 0 in
  compute_free_slots_for_date cal now 0 60 = [] /\
  nearest_free_days_keyboard cal now 0 60 = [DayButton 31 37; BackToTimeButton 0] /\
  ~ (31 <= 0 + 30).
Proof.
  intros cal now. split; [vm_compute; reflexivity|].
  split; [vm_compute; reflexivity | lia].
Qed.

(** C1 on a calendar whose one event ends at 09:45:30: the busy interval
    ends at 10:00:30, the minute of which is a multiple of the step, so the
    first candidate is not rounded and keeps its 30 seconds, and so does
    every later candidate; none is on the step grid, and the day-end slot
    18:00 is never reached. *)
Theorem candidates_keep_seconds_of_busy_end :
  let cal := calendar_with [timed_event (at_clock 0 9 0 0) (at_clock 0 9 45 30)] in
  let out := compute_free_slots_for_date cal (at_clock 0 7 0 0) 0 60 in
  list_busy_intervals cal 0 = [(at_clock 0 8 45 0, at_clock 0 10 0 30)] /\
  hd_error out = Some (at_clock 0 10 0 30) /\
  at_clock 0 10 0 30 mod STEP <> 0 /\
  forallb (fun t => negb (t mod STEP =? 0)) out = true /\
  ~ In (at_clock 0 18 0 0) out.
Proof.
  intros cal out. split; [vm_compute; reflexivity|].
  split; [vm_compute; reflexivity|]. split; [vm_compute; discriminate|].
  split; [vm_compute; reflexivity|].
  vm_compute. intros H.
  repeat (destruct H as [H|H]; [discriminate H|]). exact H.
Qed.

(* ------------------------------------------------------------------ *)
(** ** The slots on a calendar kept in whole minutes                   *)
(* ------------------------------------------------------------------ *)

Lemma free_loop_starts busy ds de cursor :
  (forall f, In f (fst (free_loop busy ds de cursor [])) ->
     fst f = cursor \/ exists b, In b busy /\ fst f = snd b) /\
  (snd (free_loop busy ds de cursor []) = cursor \/
   exists b, In b busy /\ snd (free_loop busy ds de cursor []) = snd b).
Proof.
  revert cursor. induction busy as [|[bs be] busy IH]; intros cursor.
  - simpl. split; [intros f []|now left].
  - cbn [free_loop].
    assert (Hlift : forall c : datetime,
              c = cursor \/ c = be ->
              forall x : datetime,
              (x = c \/ exists b, In b busy /\ x = snd b) ->
              x = cursor \/ exists b, In b ((bs, be) :: busy) /\ x = snd b).
    { intros c Hc x [->|(b & Hb & ->)].
      - destruct Hc as [->| ->]; [now left|]. right. exists (bs, be). simpl. auto.
      - right. exists b. simpl. auto. }
    destruct ((be <=? ds) || (bs >=? de)).
    { destruct (IH cursor) as [A B]. split.
      - intros f Hf. apply (Hlift cursor); auto.
      - apply (Hlift cursor); auto. }
    assert (Hmax : Z.max cursor be = cursor \/ Z.max cursor be = be) by lia.
    destruct (IH (Z.max cursor be)) as [A B].
    destruct (bs >? cursor); cbn [app];
      destruct (Z.max cursor be >=? de); cbn [fst snd].
    + split; [intros f [<-|[]]; now left|].
      apply (Hlift (Z.max cursor be)); auto.
    + rewrite free_loop_acc. cbn [fst snd app]. split.
      * intros f [<-|Hf]; [now left|]. apply (Hlift (Z.max cursor be)); auto.
      * apply (Hlift (Z.max cursor be)); auto.
    + split; [intros f []|]. apply (Hlift (Z.max cursor be)); auto.
    + split.
      * intros f Hf. apply (Hlift (Z.max cursor be)); auto.
      * apply (Hlift (Z.max cursor be)); auto.
Qed.

Lemma free_intervals_starts busy ds de f :
  In f (free_intervals busy ds de) ->
  fst f = ds \/ exists b, In b busy /\ fst f = snd b.
Proof.
  unfold free_intervals. destruct (free_loop_starts busy ds de ds) as [A B].
  destruct (free_loop busy ds de ds []) as [free cursor]. cbn [fst snd] in *.
  destruct (cursor <? de); [|apply A].
  rewrite in_app_iff. intros [Hf|[<-|[]]]; [now apply A | exact B].
Qed.

(** From a whole-minute start the first candidate is the first grid point
    not before the start. *)
Lemma first_candidate_whole fs :
  fs mod MINUTE = 0 ->
  first_candidate fs mod STEP = 0 /\ fs <= first_candidate fs < fs + STEP /\
  (fs mod STEP = 0 -> first_candidate fs = fs).
Proof.
  intros Hm. unfold first_candidate.
  destruct (Z.eqb_spec (dt_minute fs mod SLOT_STEP_MIN) 0) as [E|E]; cbn [negb];
    clock_lia.
Qed.

Lemma stepped_from_grid c t :
  c mod STEP = 0 -> (stepped_from c t <-> c <= t /\ t mod STEP = 0).
Proof.
  intros Hc. unfold stepped_from. split.
  - intros (k & Hk & ->). clock_lia.
  - intros [H1 H2]. exists ((t - c) / STEP). clock_lia.
Qed.

(** From a whole-minute start the candidates are the grid points from that
    start on. *)
Lemma stepped_from_first_candidate fs t :
  fs mod MINUTE = 0 ->
  stepped_from (first_candidate fs) t <-> fs <= t /\ t mod STEP = 0.
Proof.
  intros Hm. destruct (first_candidate_whole fs Hm) as (A & B & C).
  rewrite (stepped_from_grid _ t A).
  split; [intros [H1 H2]; split; [lia | exact H2]|].
  intros [H1 H2]. split; [|exact H2].
  destruct (Z.eq_dec (fs mod STEP) 0) as [E|E]; [rewrite C; auto|].
  revert A B H1 H2 E. generalize (first_candidate fs). intros c. clock_lia.
Qed.

Lemma day_start_whole_minute d : day_start_of d mod MINUTE = 0.
Proof. clock_lia. Qed.

(** C1 away from the missed case: when every busy interval of the day ends
    on a whole minute and the duration is positive, a timestamp is returned
    exactly when it is a grid point of a free interval of the working
    window, strictly later than now, and either fits before the end of that
    interval or is the day-end boundary; the list is strictly ascending. *)
Lemma compute_free_slots_on_whole_minutes cal now d need :
  0 < need ->
  (forall b, In b (list_busy_intervals cal d) -> snd b mod MINUTE = 0) ->
  StronglySorted Z.lt (compute_free_slots_for_date cal now d need) /\
  forall t,
    In t (compute_free_slots_for_date cal now d need) <->
    exists f,
      In f (free_intervals (list_busy_intervals cal d) (day_start_of d) (day_end_of d)) /\
      fst f <= t <= snd f /\ t mod STEP = 0 /\ now < t /\
      (t + timedelta_minutes need <= snd f \/ t = day_end_of d).
Proof.
  intros Hneed Hmin. split; [apply compute_free_slots_sorted|]. intros t.
  rewrite compute_free_slots_In.
  assert (Hpos : 0 < timedelta_minutes need) by (clock; lia).
  split; intros (f & Hf & H); exists f; (split; [exact Hf|]);
    pose proof (free_intervals_spec _ _ _ _ (list_busy_sorted cal d) Hf)
      as (F1 & F2 & F3 & _);
    assert (Hfs : fst f mod MINUTE = 0)
      by (destruct (free_intervals_starts _ _ _ _ Hf) as [->|(b & Hb & ->)];
          [apply day_start_whole_minute | now apply Hmin]);
    rewrite (stepped_from_first_candidate _ t Hfs) in *.
  - destruct H as ((H1 & H2) & H3 & H4 & H5). repeat split; try assumption.
    destruct H5 as [[_ H5]|[-> H5]]; [now left|]. right.
    apply WORK_END_only_at_day_end; [lia | exact H5].
  - destruct H as ((H1 & H2) & H3 & H4 & H5). repeat split; try assumption.
    destruct H5 as [H5|H5]; [left; lia|]. right.
    assert (snd f = day_end_of d) by lia.
    split; [lia|]. replace (snd f) with (day_end_of d) by lia.
    apply day_end_is_WORK_END.
Qed.

(* ------------------------------------------------------------------ *)
(** ** Durations                                                       *)
(* ------------------------------------------------------------------ *)

Lemma digit_value_nonneg ch : isdigit ch = true -> 0 <= digit_value ch.
Proof.
  unfold isdigit, digit_value. rewrite andb_true_iff, !Z.leb_le. lia.
Qed.

Lemma scan_numbers_nonneg s num nums :
  Forall (fun n => 0 <= n) nums ->
  (forall n, num = Some n -> 0 <= n) ->
  Forall (fun n => 0 <= n) (scan_numbers s num nums).
Proof.
  revert num nums. induction s as [|ch s IH]; intros num nums Hnums Hnum;
    cbn [scan_numbers].
  - destruct num as [n|]; [|exact Hnums].
    apply Forall_app. split; [exact Hnums|]. constructor; [now apply Hnum|constructor].
  - destruct (isdigit ch) eqn:Ed.
    + apply IH; [exact Hnums|]. intros n E.
      pose proof (digit_value_nonneg ch Ed).
      assert (Hv : 0 <= 10 * match num with Some n0 => n0 | None => 0 end
                        + digit_value ch).
      { destruct num as [m|]; [specialize (Hnum m eq_refl)|]; lia. }
      congruence.
    + destruct num as [n|]; apply IH; try discriminate; [|exact Hnums].
      apply Forall_app. split; [exact Hnums|].
      constructor; [now apply Hnum|constructor].
Qed.

Lemma scan_numbers_no_digit s nums :
  no_digit s = true -> scan_numbers s None nums = nums.
Proof.
  revert nums. induction s as [|ch s IH]; intros nums; simpl; [reflexivity|].
  rewrite andb_true_iff, negb_true_iff. intros [-> H]. now apply IH.
Qed.

Lemma no_digit_remove_spaces s : no_digit s = true -> no_digit (remove_spaces s) = true.
Proof.
  induction s as [|ch s IH]; simpl; [reflexivity|].
  rewrite andb_true_iff. intros [H1 H2].
  destruct (Ascii.eqb ch " "); [now apply IH|]. simpl. rewrite H1. now apply IH.
Qed.

Lemma round_half_nonneg n : 0 <= n -> 0 <= round_half n.
Proof.
  intros Hn. unfold round_half.
  pose proof (Z.div_pos n 2 Hn ltac:(lia)).
  destruct (Z.even n); [assumption|]. destruct (Z.even (n / 2)); lia.
Qed.

Lemma extract_minutes_nonneg s : 0 <= _extract_minutes_from_duration_string s.
Proof.
  unfold _extract_minutes_from_duration_string.
  pose proof (scan_numbers_nonneg (remove_spaces s) None []
                (Forall_nil _) ltac:(discriminate)) as H.
  destruct (scan_numbers (remove_spaces s) None []) as [|a [|b rest]]; [lia| |].
  - now inversion H.
  - inversion H as [|? ? Ha H']; subst. inversion H' as [|? ? Hb _]; subst.
    apply round_half_nonneg. lia.
Qed.

Lemma service_duration_in_pos catalog service_name :
  0 < service_duration_in catalog service_name.
Proof.
  induction catalog as [|s c IH]; simpl; [lia|].
  destruct (String.eqb (svc_name s) service_name); [|exact IH].
  pose proof (extract_minutes_nonneg (svc_duration s)).
  destruct (Z.eqb_spec (_extract_minutes_from_duration_string (svc_duration s)) 0); lia.
Qed.


Lemma digit_free_no_digit s : digit_free s -> no_digit s = true.
Proof.
  induction 1 as [|ch s _ Hd _ IH|s _ IH|lead cont s Hc _ IH].
  - reflexivity.
  - simpl. now rewrite Hd, IH.
  - simpl. exact IH.
  - assert (Hb : 208 <= char_code lead /\ 128 <= char_code cont).
    { unfold cyrillic_small in Hc.
      rewrite orb_true_iff, !andb_true_iff, !Z.eqb_eq, !Z.leb_le in Hc. lia. }
    unfold char_code in Hb. simpl. rewrite IH. unfold isdigit.
    replace (Z.of_nat (nat_of_ascii lead) <=? 57) with false
      by (symmetry; apply Z.leb_gt; lia).
    replace (Z.of_nat (nat_of_ascii cont) <=? 57) with false
      by (symmetry; apply Z.leb_gt; lia).
    now rewrite !andb_false_r.
Qed.

Ltac digit_free_text :=
  repeat first
    [ apply digit_free_nil
    | apply digit_free_dash
    | apply digit_free_cyrillic; [reflexivity|]
    | apply digit_free_ascii; [reflexivity | reflexivity |] ].

(** X2. A duration text in which the code finds no digit (ASCII characters
    other than 0..9, en dashes, small Cyrillic letters) is read as the
    default of 60 minutes. *)
Theorem extract_minutes_default (duration_str : string) :
  digit_free duration_str ->
  _extract_minutes_from_duration_string duration_str = 60.
Proof.
  intros H. apply digit_free_no_digit in H.
  unfold _extract_minutes_from_duration_string.
  now rewrite (scan_numbers_no_digit _ [] (no_digit_remove_spaces _ H)).
Qed.

Lemma extract_minutes_default_witness :
  digit_free "около часа" /\
  _extract_minutes_from_duration_string "около часа" = 60.
Proof.
  assert (H : digit_free "около часа") by digit_free_text.
  split; [exact H|].
  apply (extract_minutes_default "около часа"). exact H.
Defined.

(* ------------------------------------------------------------------ *)
(** ** What the busy list covers                                       *)
(* ------------------------------------------------------------------ *)

Lemma buffered_In items i :
  In i (buffered items) <->
  exists e, In e items /\ ev_cancelled e = false /\
            i = (item_start e - timedelta_minutes BUFFER_MIN,
                 item_end e + timedelta_minutes BUFFER_MIN).
Proof.
  induction items as [|e items IH]; simpl.
  - split; [intros [] | intros (e & [] & _)].
  - destruct (ev_cancelled e) eqn:Ec; simpl; rewrite IH; split.
    + intros (x & Hx & H). exists x. auto.
    + intros (x & [<-|Hx] & Hc & H); [congruence | eauto].
    + intros [<-|(x & Hx & H)]; [exists e; auto | exists x; auto].
    + intros (x & [<-|Hx] & Hc & ->); [now left | right; eauto].
Qed.

Lemma buffered_covers items t :
  covers (buffered items) t <-> exists e, In e items /\ blocked_by e t.
Proof.
  unfold covers, blocked_by, inside. split.
  - intros (i & Hi & Ht). apply buffered_In in Hi as (e & He & Hc & ->).
    exists e. simpl in Ht. auto.
  - intros (e & He & Hc & Ht). eexists. split.
    + apply buffered_In. exists e. eauto.
    + simpl. exact Ht.
Qed.

(** X3. When the listing call succeeds and every item it returns has a
    dateTime at both ends, the busy list covers exactly the instants
    blocked by a non-cancelled item, buffer included; it is ascending by
    start and each interval begins strictly after every earlier one is
    over. *)
Theorem busy_list_covers_buffered_items
    (cal : calendar) (date_obj : date_cls) (items : list gevent) :
  cal_service cal = true ->
  events_list cal (_dt_on date_obj (0, 0)) (_dt_on date_obj (23, 59)) = Some items ->
  Forall timed_item items ->
  StronglySorted start_le (list_busy_intervals cal date_obj) /\
  StronglySorted apart (list_busy_intervals cal date_obj) /\
  forall t, covers (list_busy_intervals cal date_obj) t <->
            exists e, In e items /\ blocked_by e t.
Proof.
  intros Hs Hl _. unfold list_busy_intervals. rewrite Hs, Hl. simpl.
  split; [apply merge_start_sorted|]. split; [apply merge_apart|].
  intros t. rewrite merge_covers. apply buffered_covers.
Qed.

Lemma busy_list_covers_buffered_items_witness :
  let items := [timed_event (at_clock 0 10 0 0) (at_clock 0 11 0 0);
                mk_gevent true (GDateTime (at_clock 0 12 0 0)) (GDateTime (at_clock 0 13 0 0))] in
  let cal := calendar_with items in
  Forall timed_item items /\
  list_busy_intervals cal 0 = [(at_clock 0 9 45 0, at_clock 0 11 15 0)] /\
  forall t, covers (list_busy_intervals cal 0) t <->
            exists e, In e items /\ blocked_by e t.
Proof.
  intros items cal.
  assert (Ht : Forall timed_item items) by (repeat constructor).
  split; [exact Ht|]. split; [vm_compute; reflexivity|].
  apply (busy_list_covers_buffered_items cal 0 items); [reflexivity | reflexivity | exact Ht].
Defined.

(* ------------------------------------------------------------------ *)
(** ** When the reservation conflicts and what it submits              *)
(* ------------------------------------------------------------------ *)

Section ReservationOutcome.

Variable cal : calendar.
Variable b : booking.

Let start_dt := _dt_on (b_date b) (b_time b).
Let end_dt := start_dt + timedelta_minutes (_service_duration_minutes (b_service b)).
Let busy := list_busy_intervals cal (dt_date start_dt).

(** X4. The reservation returns Conflict exactly when the draft does not
    allow overlap and some busy interval listed for the day of start
    overlaps [start, start+duration). *)
Theorem conflict_iff_hard_check_hits :
  is_conflict (fst (create_event_on_calendar cal b)) = true <->
  b_allow_overlap b = false /\ exists j, In j busy /\ overlaps start_dt end_dt j.
Proof.
  unfold create_event_on_calendar, insert_event.
  fold start_dt. fold end_dt. fold busy.
  destruct (cal_service cal) eqn:Hs; cbn [negb].
  2:{ simpl. split; [discriminate|]. intros (_ & j & Hj & _).
      apply busy_nonempty_service in Hj. congruence. }
  destruct (b_allow_overlap b); cbn [negb].
  - rewrite bind_eq. simpl.
    destruct (events_insert cal _) as [[? ?]|]; simpl; split;
      try discriminate; intros [H _]; discriminate H.
  - destruct (find (intersects start_dt end_dt) busy) as [i|] eqn:Ef.
    + simpl. split; [intros _|reflexivity]. split; [reflexivity|].
      apply find_some in Ef. exists i. now rewrite <- intersects_overlaps.
    + rewrite bind_eq. simpl.
      assert (Hno : ~ exists j, In j busy /\ overlaps start_dt end_dt j).
      { intros (j & Hj & Hov). rewrite find_none_iff in Ef.
        apply intersects_overlaps in Hov. rewrite (Ef _ Hj) in Hov. discriminate. }
      destruct (events_insert cal _) as [[? ?]|]; simpl; split;
        try discriminate; intros [_ H]; contradiction.
Qed.

(** X5. The reservation makes no insert call when there is no calendar
    handle or when it returns Conflict, and otherwise exactly one, for an
    event that starts at the draft's date and time, lasts the duration of
    the service, ends strictly after it starts, and carries the two popup
    reminders of 120 and 30 minutes. *)
Theorem reservation_inserts_at_most_once :
  let body := make_event_body b start_dt end_dt in
  snd (create_event_on_calendar cal b) =
    (if cal_service cal && negb (is_conflict (fst (create_event_on_calendar cal b)))
     then [CalendarInsert body] else []) /\
  eb_start body = start_dt /\ eb_end body = end_dt /\
  eb_start body < eb_end body /\ eb_reminders body = [120; 30].
Proof.
  intros body. split.
  - unfold create_event_on_calendar, insert_event.
    fold start_dt. fold end_dt. fold busy. fold body.
    destruct (cal_service cal); cbn [negb andb]; [|reflexivity].
    destruct (b_allow_overlap b); cbn [negb].
    + rewrite bind_eq. simpl. destruct (events_insert cal body) as [[? ?]|]; reflexivity.
    + destruct (find (intersects start_dt end_dt) busy); [reflexivity|].
      rewrite bind_eq. simpl. destruct (events_insert cal body) as [[? ?]|]; reflexivity.
  - repeat split. simpl. subst end_dt.
    pose proof (service_duration_in_pos SERVICES (b_service b)).
    fold (_service_duration_minutes (b_service b)) in H.
    unfold timedelta_minutes, MINUTE, SECOND. lia.
Qed.

End ReservationOutcome.

(* ------------------------------------------------------------------ *)
(** ** Free intervals as the window without the busy intervals         *)
(* ------------------------------------------------------------------ *)

Lemma free_loop_complete busy ds de cursor t :
  cursor <= t -> ~ covers busy t ->
  (exists f, In f (fst (free_loop busy ds de cursor [])) /\ inside t f /\ snd f <= de) \/
  snd (free_loop busy ds de cursor []) <= t.
Proof.
  revert cursor. induction busy as [|[bs be] busy IH]; intros cursor Hc Hfree.
  - right. simpl. exact Hc.
  - assert (Hrest : ~ covers busy t).
    { intros (i & Hi & Ht). apply Hfree. exists i. simpl. auto. }
    assert (Hhd : ~ (bs <= t < be)).
    { intros H. apply Hfree. exists (bs, be). simpl. unfold inside. simpl. auto. }
    cbn [free_loop].
    destruct ((be <=? ds) || (bs >=? de)) eqn:Eskip; [now apply IH|].
    apply orb_false_iff in Eskip as [_ Ebs]. rewrite Z.geb_leb, Z.leb_gt in Ebs.
    destruct (Z.gtb_spec bs cursor) as [Hgt|Hle]; cbn [app].
    + destruct (Z.lt_ge_cases t bs) as [Htb|Htb].
      * left. exists (cursor, Z.min bs de). split.
        -- destruct (Z.max cursor be >=? de); [now left|].
           rewrite free_loop_acc. cbn [fst]. now left.
        -- unfold inside. simpl. lia.
      * destruct (Z.geb_spec (Z.max cursor be) de) as [Hbr|Hbr]; cbn [fst snd].
        -- right. lia.
        -- rewrite free_loop_acc. cbn [fst snd].
           destruct (IH (Z.max cursor be) ltac:(lia) Hrest) as [(f & Hf & Hin)|Hr].
           ++ left. exists f. split; [now right | exact Hin].
           ++ right. exact Hr.
    + destruct (Z.geb_spec (Z.max cursor be) de) as [Hbr|Hbr]; cbn [fst snd].
      * right. lia.
      * apply IH; [lia | exact Hrest].
Qed.

Lemma free_loop_ends busy ds de cursor f :
  In f (fst (free_loop busy ds de cursor [])) ->
  exists b, In b busy /\ snd f = fst b.
Proof.
  revert cursor. induction busy as [|[bs be] busy IH]; intros cursor; [intros []|].
  cbn [free_loop].
  assert (Hlift : (exists b, In b busy /\ snd f = fst b) ->
                  exists b, In b ((bs, be) :: busy) /\ snd f = fst b).
  { intros (b & Hb & E). exists b. simpl. auto. }
  destruct ((be <=? ds) || (bs >=? de)) eqn:Eskip; [intros H; eapply Hlift, IH, H|].
  apply orb_false_iff in Eskip as [_ Ebs]. rewrite Z.geb_leb, Z.leb_gt in Ebs.
  assert (Hhd : forall g : interval, g = (cursor, Z.min bs de) ->
                exists b, In b ((bs, be) :: busy) /\ snd g = fst b).
  { intros g ->. exists (bs, be). simpl. split; [auto | lia]. }
  destruct (bs >? cursor); cbn [app];
    destruct (Z.max cursor be >=? de); cbn [fst].
  - intros [<-|[]]. now apply Hhd.
  - rewrite free_loop_acc. cbn [fst app].
    intros [<-|H]; [now apply Hhd | eapply Hlift, IH, H].
  - intros [].
  - intros H. eapply Hlift, IH, H.
Qed.

Lemma free_intervals_ends busy ds de f :
  In f (free_intervals busy ds de) ->
  snd f = de \/ exists b, In b busy /\ snd f = fst b.
Proof.
  unfold free_intervals. pose proof (free_loop_ends busy ds de ds f) as A.
  destruct (free_loop busy ds de ds []) as [free cursor]. cbn [fst snd] in *.
  destruct (cursor <? de); [|auto].
  rewrite in_app_iff. intros [Hf|[<-|[]]]; [auto | now left].
Qed.

Lemma free_intervals_complete busy ds de t :
  ds <= t < de -> ~ covers busy t ->
  exists f, In f (free_intervals busy ds de) /\ inside t f /\ snd f <= de.
Proof.
  intros Ht Hfree. unfold free_intervals.
  destruct (free_loop_complete busy ds de ds t (proj1 Ht) Hfree) as [(f & Hf & Hin)|Hr];
    destruct (free_loop busy ds de ds []) as [free cursor]; cbn [fst snd] in *.
  - exists f. split; [|exact Hin]. destruct (cursor <? de); [apply in_or_app|]; auto.
  - destruct (Z.ltb_spec cursor de); [|lia].
    exists (cursor, de). split; [apply in_or_app; right; now left|].
    unfold inside. simpl. lia.
Qed.

(** X6. For a busy list in start order, the free intervals are the working
    window without the busy intervals: an instant of the window lies in a
    free interval exactly when no busy interval covers it, and every free
    interval is a non-empty part of the window. *)
Theorem free_intervals_are_window_minus_busy
    (busy : list interval) (day_start day_end : datetime) :
  StronglySorted start_le busy ->
  (forall t, day_start <= t < day_end ->
     (covers (free_intervals busy day_start day_end) t <-> ~ covers busy t)) /\
  (forall f, In f (free_intervals busy day_start day_end) ->
     day_start <= fst f /\ fst f < snd f /\ snd f <= day_end).
Proof.
  intros Hs. split.
  - intros t Ht. split.
    + intros (f & Hf & Hin) (b & Hb & Hbt).
      destruct (free_intervals_spec _ _ _ _ Hs Hf) as (_ & _ & _ & Hclear).
      unfold inside in *. destruct (Hclear b Hb); lia.
    + intros Hfree.
      destruct (free_intervals_complete busy day_start day_end t Ht Hfree)
        as (f & Hf & Hin & _).
      exists f. auto.
  - intros f Hf. destruct (free_intervals_spec _ _ _ _ Hs Hf) as (A & B & C & _). auto.
Qed.

Lemma free_intervals_are_window_minus_busy_witness :
  let busy := [(at_clock 0 9 45 0, at_clock 0 11 15 0)] in
  free_intervals busy (day_start_of 0) (day_end_of 0) =
    [(at_clock 0 8 15 0, at_clock 0 9 45 0); (at_clock 0 11 15 0, at_clock 0 18 0 0)] /\
  forall t, day_start_of 0 <= t < day_end_of 0 ->
    (covers (free_intervals busy (day_start_of 0) (day_end_of 0)) t <-> ~ covers busy t).
Proof.
  intros busy. split; [vm_compute; reflexivity|].
  apply (free_intervals_are_window_minus_busy busy (day_start_of 0) (day_end_of 0)).
  repeat constructor.
Defined.

(* ------------------------------------------------------------------ *)
(** ** What every offered slot satisfies                               *)
(* ------------------------------------------------------------------ *)

Lemma slot_facts cal now d need slot :
  In slot (compute_free_slots_for_date cal now d need) ->
  day_start_of d <= slot <= day_end_of d /\ now < slot /\
  (slot <> day_end_of d ->
   slot + timedelta_minutes need <= day_end_of d /\
   forall b, In b (list_busy_intervals cal d) ->
             ~ overlaps slot (slot + timedelta_minutes need) b).
Proof.
  intros Hin.
  apply compute_free_slots_In in Hin as (f & Hf & Hstep & Hle & Hnow & Hoff).
  apply free_intervals_spec in Hf as (F1 & F2 & F3 & F4); [|apply list_busy_sorted].
  pose proof (first_candidate_ge (fst f)) as Hfc.
  apply stepped_from_ge in Hstep.
  split; [lia|]. split; [exact Hnow|]. intros Hne.
  destruct Hoff as [[Hlt Hfit]|[Heq HW]].
  - split; [lia|]. intros b Hb. unfold overlaps. destruct (F4 b Hb); lia.
  - exfalso. apply Hne. rewrite Heq.
    apply WORK_END_only_at_day_end; [lia | exact HW].
Qed.

(** X7. Every slot the function returns lies in the working window of the
    day and strictly after now; and unless it is the day-end slot, the
    service started at it ends by the day end and overlaps no busy
    interval of the day. *)
Theorem offered_slot_is_free_and_future
    (cal : calendar) (now : datetime) (d : date_cls) (need : Z) (slot : datetime) :
  In slot (compute_free_slots_for_date cal now d need) ->
  day_start_of d <= slot <= day_end_of d /\ now < slot /\
  (slot <> day_end_of d ->
   slot + timedelta_minutes need <= day_end_of d /\
   forall b, In b (list_busy_intervals cal d) ->
             ~ overlaps slot (slot + timedelta_minutes need) b).
Proof. apply slot_facts. Qed.

Lemma offered_slot_is_free_and_future_witness :
  let cal := calendar_with [timed_event (at_clock 0 10 0 0) (at_clock 0 11 0 0)] in
  let slot := at_clock 0 11 15 0 in
  day_start_of 0 <= slot <= day_end_of 0 /\ at_clock 0 7 0 0 < slot.
Proof.
  intros cal slot.
  destruct (offered_slot_is_free_and_future cal (at_clock 0 7 0 0) 0 60 slot)
    as (A & B & _).
  - vm_compute. intuition congruence.
  - exact (conj A B).
Defined.

Lemma no_member_nil {A} (l : list A) : (forall x, ~ In x l) -> l = [].
Proof. destruct l as [|a l]; [reflexivity|]. intros H. destruct (H a). now left. Qed.

(** X8. For a day that is already over (now at or after the day end) the
    function offers nothing. *)
Theorem past_day_has_no_slots
    (cal : calendar) (now : datetime) (d : date_cls) (need : Z) :
  day_end_of d <= now ->
  compute_free_slots_for_date cal now d need = [].
Proof.
  intros Hpast. apply no_member_nil. intros t Hin.
  apply slot_facts in Hin as (A & B & _). lia.
Qed.

Lemma past_day_has_no_slots_witness :
  compute_free_slots_for_date calendar_off (at_clock 0 18 0 0) 0 30 = [].
Proof.
  apply (past_day_has_no_slots calendar_off (at_clock 0 18 0 0) 0 30).
  vm_compute. discriminate.
Defined.

(** X9. When one busy interval spans the whole working window of the day,
    the function offers nothing, not even the day-end slot. *)
Theorem blocked_day_has_no_slots
    (cal : calendar) (now : datetime) (d : date_cls) (need : Z) (b : interval) :
  In b (list_busy_intervals cal d) ->
  fst b <= day_start_of d -> day_end_of d <= snd b ->
  compute_free_slots_for_date cal now d need = [].
Proof.
  intros Hb Hlo Hhi. apply no_member_nil. intros t Hin.
  apply compute_free_slots_In in Hin as (f & Hf & _).
  apply free_intervals_spec in Hf as (F1 & F2 & F3 & F4); [|apply list_busy_sorted].
  destruct (F4 b Hb); lia.
Qed.

Lemma blocked_day_has_no_slots_witness :
  compute_free_slots_for_date (calendar_with [block_days 1 31]) (at_clock 0 7 0 0) 5 60 = [].
Proof.
  apply (blocked_day_has_no_slots (calendar_with [block_days 1 31]) (at_clock 0 7 0 0) 5 60
           (at_clock 1 0 0 0 - timedelta_minutes 15, at_clock 31 0 0 0 + timedelta_minutes 15)).
  - vm_compute. now left.
  - vm_compute. discriminate.
  - vm_compute. discriminate.
Defined.

(* ------------------------------------------------------------------ *)
(** ** How the slots change with now and with the duration             *)
(* ------------------------------------------------------------------ *)

Lemma sorted_lt_ext l1 l2 :
  StronglySorted Z.lt l1 -> StronglySorted Z.lt l2 ->
  (forall t, In t l1 <-> In t l2) -> l1 = l2.
Proof.
  intros H1. revert l2. induction H1 as [|x l1 Hs1 IH Hx]; intros l2 H2 Hext.
  - symmetry. apply no_member_nil. intros t Ht. now apply Hext in Ht.
  - destruct H2 as [|y l2 Hs2 Hy].
    + destruct (proj1 (Hext x)). now left.
    + rewrite Forall_forall in Hx, Hy.
      assert (x = y).
      { destruct (proj1 (Hext x) ltac:(now left)) as [E|Hxi]; [auto|].
        destruct (proj2 (Hext y) ltac:(now left)) as [E|Hyi]; [auto|].
        specialize (Hx _ Hyi). specialize (Hy _ Hxi). lia. }
      subst y. f_equal. apply IH; [exact Hs2|]. intros t. split; intros Ht.
      * destruct (proj1 (Hext t) ltac:(now right)) as [E|H]; [|exact H].
        specialize (Hx _ Ht). lia.
      * destruct (proj2 (Hext t) ltac:(now right)) as [E|H]; [|exact H].
        specialize (Hy _ Ht). lia.
Qed.

Lemma filter_sorted_lt f l : StronglySorted Z.lt l -> StronglySorted Z.lt (filter f l).
Proof.
  induction 1 as [|x l Hs IH Hx]; simpl; [constructor|].
  destruct (f x); [|exact IH]. constructor; [exact IH|].
  rewrite Forall_forall in *. intros t Ht. apply filter_In in Ht. now apply Hx.
Qed.

(** X10. Asking later only drops slots: for now <= now', the slots
    computed at now' are the slots computed at now that are strictly later
    than now', in the same order. *)
Theorem later_now_filters_slots
    (cal : calendar) (now now' : datetime) (d : date_cls) (need : Z) :
  now <= now' ->
  compute_free_slots_for_date cal now' d need =
  filter (fun t => now' <? t) (compute_free_slots_for_date cal now d need).
Proof.
  intros Hle. apply sorted_lt_ext.
  - apply compute_free_slots_sorted.
  - apply filter_sorted_lt, compute_free_slots_sorted.
  - intros t. rewrite filter_In, Z.ltb_lt, !compute_free_slots_In.
    unfold offerable. split.
    + intros (f & Hf & Hs & Ht & Hn & Ho). split; [|exact Hn].
      exists f. repeat split; try assumption. lia.
    + intros ((f & Hf & Hs & Ht & Hn & Ho) & Hn'). exists f. auto.
Qed.

Lemma later_now_filters_slots_witness :
  let cal := calendar_with [timed_event (at_clock 0 10 0 0) (at_clock 0 11 0 0)] in
  compute_free_slots_for_date cal (at_clock 0 16 20 0) 0 30 =
  filter (fun t => at_clock 0 16 20 0 <? t)
    (compute_free_slots_for_date cal (at_clock 0 7 0 0) 0 30).
Proof.
  intros cal.
  apply (later_now_filters_slots cal (at_clock 0 7 0 0) (at_clock 0 16 20 0) 0 30).
  vm_compute. discriminate.
Defined.

(** X11. A longer service never gets a slot that a shorter one does not
    get: for need <= need', every slot offered for need' is offered for
    need. *)
Theorem longer_service_fewer_slots
    (cal : calendar) (now : datetime) (d : date_cls) (need need' : Z) (t : datetime) :
  need <= need' ->
  In t (compute_free_slots_for_date cal now d need') ->
  In t (compute_free_slots_for_date cal now d need).
Proof.
  intros Hle. rewrite !compute_free_slots_In. unfold offerable.
  intros (f & Hf & Hs & Ht & Hn & Ho). exists f. repeat split; try assumption.
  destruct Ho as [[H1 H2]|H]; [left|right; exact H].
  split; [exact H1|]. unfold timedelta_minutes, MINUTE, SECOND in *. lia.
Qed.

Lemma longer_service_fewer_slots_witness :
  In (at_clock 0 8 15 0)
     (compute_free_slots_for_date calendar_off (at_clock 0 7 0 0) 0 30).
Proof.
  apply (longer_service_fewer_slots calendar_off (at_clock 0 7 0 0) 0 30 105
           (at_clock 0 8 15 0)).
  - vm_compute. discriminate.
  - vm_compute. now left.
Defined.

(* ------------------------------------------------------------------ *)
(** ** The slots in terms of the busy list alone                       *)
(* ------------------------------------------------------------------ *)

(** X12. On a day whose busy intervals are non-empty and end on whole
    minutes, for a positive duration, a timestamp is offered exactly when
    it is on the step grid, strictly later than now, and either the
    service started at it stays inside the working window and overlaps no
    busy interval, or it is the day end itself and no busy interval
    reaches across the day end. *)
Theorem slots_exactly_free_grid_points
    (cal : calendar) (now : datetime) (d : date_cls) (need : Z) :
  0 < need ->
  Forall valid_interval (list_busy_intervals cal d) ->
  (forall b, In b (list_busy_intervals cal d) -> snd b mod MINUTE = 0) ->
  forall t,
    In t (compute_free_slots_for_date cal now d need) <->
    t mod STEP = 0 /\ now < t /\
    ((day_start_of d <= t /\ t + timedelta_minutes need <= day_end_of d /\
      forall b, In b (list_busy_intervals cal d) ->
                ~ overlaps t (t + timedelta_minutes need) b)
     \/
     (t = day_end_of d /\
      forall b, In b (list_busy_intervals cal d) ->
                ~ (fst b < day_end_of d <= snd b))).
Proof.
  intros Hneed Hvalid Hmin t.
  destruct (compute_free_slots_on_whole_minutes cal now d need Hneed Hmin) as [_ Hchar].
  rewrite Hchar. clear Hchar.
  assert (Hpos : 0 < timedelta_minutes need)
    by (unfold timedelta_minutes, MINUTE, SECOND; lia).
  pose proof (list_busy_sorted cal d) as Hs.
  pose proof (day_window d) as Hwin.
  rewrite Forall_forall in Hvalid. unfold valid_interval in Hvalid.
  set (busy := list_busy_intervals cal d) in *.
  set (need' := timedelta_minutes need) in *.
  split.
  - intros (f & Hf & Hin & Hgrid & Hnow & Hfit).
    destruct (free_intervals_spec _ _ _ _ Hs Hf) as (F1 & F2 & F3 & F4).
    split; [exact Hgrid|]. split; [exact Hnow|].
    destruct Hfit as [Hfit|Hend].
    + left. split; [lia|]. split; [lia|].
      intros b Hb. unfold overlaps. destruct (F4 b Hb); lia.
    + right. split; [exact Hend|]. intros b Hb. destruct (F4 b Hb); lia.
  - intros (Hgrid & Hnow & [(Hlo & Hhi & Hclear)|(Hend & Hclear)]).
    + assert (Hfree : ~ covers busy t).
      { intros (b & Hb & Hbt). apply (Hclear b Hb).
        unfold overlaps, inside in *. lia. }
      destruct (free_intervals_complete busy (day_start_of d) (day_end_of d) t
                  ltac:(lia) Hfree) as (f & Hf & Hin & Hfe).
      exists f. split; [exact Hf|]. unfold inside in Hin.
      assert (Hfit : t + need' <= snd f).
      { destruct (free_intervals_ends _ _ _ _ Hf) as [E|(b & Hb & E)]; [lia|].
        destruct (Z.le_gt_cases (t + need') (snd f)) as [H|H]; [exact H|].
        exfalso. apply (Hclear b Hb). specialize (Hvalid b Hb).
        unfold overlaps. lia. }
      repeat split; try assumption; lia.
    + assert (Hfree : ~ covers busy (day_end_of d - 1)).
      { intros (b & Hb & Hbt). apply (Hclear b Hb). unfold inside in Hbt. lia. }
      destruct (free_intervals_complete busy (day_start_of d) (day_end_of d)
                  (day_end_of d - 1) ltac:(lia) Hfree) as (f & Hf & Hin & Hfe).
      exists f. split; [exact Hf|]. unfold inside in Hin.
      repeat split; try assumption; lia.
Qed.

Lemma slots_exactly_free_grid_points_witness :
  let cal := calendar_with [timed_event (at_clock 0 10 0 0) (at_clock 0 11 0 0)] in
  let t := at_clock 0 11 15 0 in
  In t (compute_free_slots_for_date cal (at_clock 0 7 0 0) 0 60) <->
  t mod STEP = 0 /\ at_clock 0 7 0 0 < t /\
  ((day_start_of 0 <= t /\ t + timedelta_minutes 60 <= day_end_of 0 /\
    forall b, In b (list_busy_intervals cal 0) ->
              ~ overlaps t (t + timedelta_minutes 60) b)
   \/
   (t = day_end_of 0 /\
    forall b, In b (list_busy_intervals cal 0) ->
              ~ (fst b < day_end_of 0 <= snd b))).
Proof.
  intros cal t.
  apply (slots_exactly_free_grid_points cal (at_clock 0 7 0 0) 0 60).
  - reflexivity.
  - vm_compute. repeat constructor.
  - intros b Hb. vm_compute in Hb. destruct Hb as [<-|[]]. reflexivity.
Defined.

(* ------------------------------------------------------------------ *)
(** ** The nearest-days keyboard, row by row                           *)
(* ------------------------------------------------------------------ *)

Lemma nearest_loop_exact cal now anchor minutes n :
  forall fuel d found rows,
    (n < fuel)%nat -> d + Z.of_nat n = anchor + 31 -> 0 <= found <= 7 ->
    nearest_loop fuel cal now anchor minutes d found rows =
    (rows ++ map (day_button_for cal now minutes)
               (firstn (Z.to_nat (7 - found))
                  (filter (has_slots cal now minutes) (days_after d n))),
     found + Z.of_nat (List.length
               (firstn (Z.to_nat (7 - found))
                  (filter (has_slots cal now minutes) (days_after d n))))).
Proof.
  induction n as [|n IH]; intros fuel d found rows Hfuel Hd Hfound;
    (destruct fuel as [|fuel]; [lia|]); cbn [nearest_loop]; unfold timedelta_days.
  - destruct (Z.leb_spec d (anchor + 30)); [lia|]. rewrite andb_false_r.
    cbn [days_after filter]. rewrite firstn_nil. simpl.
    now rewrite app_nil_r, Z.add_0_r.
  - destruct (Z.ltb_spec found 7) as [H7|H7]; cbn [andb].
    2:{ replace (7 - found) with 0 by lia. simpl.
        now rewrite app_nil_r, Z.add_0_r. }
    destruct (Z.leb_spec d (anchor + 30)); [|lia].
    cbn [days_after filter].
    destruct (compute_free_slots_for_date cal now (d + 1) minutes) as [|s0 rest] eqn:E.
    + assert (Hh : has_slots cal now minutes (d + 1) = false)
        by (unfold has_slots; now rewrite E).
      rewrite Hh. apply IH; lia.
    + assert (Hh : has_slots cal now minutes (d + 1) = true)
        by (unfold has_slots; now rewrite E).
      rewrite Hh. rewrite (IH fuel (d + 1) (found + 1)) by lia.
      replace (Z.to_nat (7 - found)) with (S (Z.to_nat (7 - (found + 1)))) by lia.
      cbn [firstn map List.length]. rewrite <- app_assoc. cbn [app].
      unfold day_button_for at 2. rewrite E. f_equal. lia.
Qed.

(** X13. The nearest-days keyboard is, row by row: a button for each of
    the first 7 days with slots among the 31 days that follow the anchor,
    in ascending order and labelled with the number of slots of the day;
    then one row saying that there is no free day when there is none; and
    last the row that leads back to the anchor date. *)
Theorem nearest_keyboard_rows
    (cal : calendar) (now : datetime) (anchor : date_cls) (minutes : Z) :
  nearest_free_days_keyboard cal now anchor minutes =
  map (day_button_for cal now minutes)
      (firstn 7 (filter (has_slots cal now minutes) (days_after anchor 31)))
  ++ match firstn 7 (filter (has_slots cal now minutes) (days_after anchor 31)) with
     | [] => [NoFreeDaysButton]
     | _ :: _ => []
     end
  ++ [BackToTimeButton anchor].
Proof.
  unfold nearest_free_days_keyboard.
  rewrite (nearest_loop_exact cal now anchor minutes 31 nearest_fuel anchor 0 [])
    by (unfold nearest_fuel; lia).
  change (Z.to_nat (7 - 0)) with 7%nat. cbn [app].
  destruct (firstn 7 (filter (has_slots cal now minutes) (days_after anchor 31)))
    as [|d0 ds]; [reflexivity|].
  cbn [List.length map].
  destruct (Z.eqb_spec (0 + Z.of_nat (S (List.length ds))) 0); [lia|].
  reflexivity.
Qed.

(* ------------------------------------------------------------------ *)
(** ** The keyboard of slots                                           *)
(* ------------------------------------------------------------------ *)

Lemma times_rows_fold date_obj slots :
  forall rows row,
    Forall (fun r => List.length r = 3%nat) rows -> (List.length row < 3)%nat ->
    Forall (fun r => List.length r = 3%nat)
           (fst (fold_left (times_row_step date_obj) slots (rows, row))) /\
    (List.length (snd (fold_left (times_row_step date_obj) slots (rows, row))) < 3)%nat /\
    List.concat (fst (fold_left (times_row_step date_obj) slots (rows, row)))
      ++ snd (fold_left (times_row_step date_obj) slots (rows, row))
    = List.concat rows ++ row
      ++ map (fun dt => SlotButton date_obj (strftime_HM dt)) slots.
Proof.
  induction slots as [|dt slots IH]; intros rows row Hrows Hrow.
  - simpl. now rewrite app_nil_r.
  - cbn [fold_left times_row_step].
    destruct (Nat.eqb_spec (List.length (row ++ [SlotButton date_obj (strftime_HM dt)])) 3)
      as [E|E].
    + destruct (IH (rows ++ [row ++ [SlotButton date_obj (strftime_HM dt)]]) [])
        as (A & B & C).
      * apply Forall_app. split; [exact Hrows|]. now constructor.
      * simpl. lia.
      * split; [exact A|]. split; [exact B|]. rewrite C.
        rewrite concat_app. simpl. now rewrite app_nil_r, <- !app_assoc.
    + destruct (IH rows (row ++ [SlotButton date_obj (strftime_HM dt)]))
        as (A & B & C).
      * exact Hrows.
      * rewrite length_app in *. simpl in *. lia.
      * split; [exact A|]. split; [exact B|]. rewrite C.
        now rewrite <- !app_assoc.
Qed.

(** X14. For a non-empty list of slots the keyboard is the rows of slot
    buttons followed by the four fixed rows; the slot rows, read in
    order, give one button per slot in the order of the slots, each with
    the slot's "%H:%M" as label; every slot row holds 1 to 3 buttons, and
    every slot row but the last holds exactly 3. *)
Theorem times_keyboard_rows_of_three (date_obj : date_cls) (slots : list datetime) :
  slots <> [] ->
  exists slot_rows,
    times_keyboard_rows date_obj slots = slot_rows ++ times_keyboard_tail date_obj /\
    List.concat slot_rows = map (fun dt => SlotButton date_obj (strftime_HM dt)) slots /\
    Forall (fun r => (1 <= List.length r <= 3)%nat) slot_rows /\
    Forall (fun r => List.length r = 3%nat) (removelast slot_rows).
Proof.
  intros Hne. unfold times_keyboard_rows. fold (times_keyboard_tail date_obj).
  destruct slots as [|s0 rest]; [congruence|].
  destruct (times_rows_fold date_obj (s0 :: rest) [] []) as (A & B & C);
    [constructor | simpl; lia |].
  destruct (fold_left (times_row_step date_obj) (s0 :: rest) ([], []))
    as [rows row]. cbn [fst snd] in *. simpl in C.
  destruct row as [|b0 row].
  - exists rows. rewrite app_nil_r in C. split; [reflexivity|]. split; [exact C|].
    split.
    + eapply Forall_impl; [|exact A]. simpl. intros r ->. lia.
    + clear -A. induction A as [|r rows Hr HA IH]; [constructor|].
      destruct rows as [|r' rows]; [constructor|].
      change (removelast (r :: r' :: rows)) with (r :: removelast (r' :: rows)).
      constructor; assumption.
  - exists (rows ++ [b0 :: row]). split; [reflexivity|]. split.
    + rewrite concat_app. simpl. now rewrite app_nil_r.
    + split.
      * apply Forall_app. split.
        -- eapply Forall_impl; [|exact A]. simpl. intros r ->. lia.
        -- constructor; [simpl in *; lia | constructor].
      * rewrite removelast_last. exact A.
Qed.

Lemma times_keyboard_rows_of_three_witness :
  let slots := [at_clock 0 8 15 0; at_clock 0 8 30 0; at_clock 0 8 45 0; at_clock 0 9 0 0] in
  times_keyboard_rows 0 slots =
    [[SlotButton 0 (8, 15); SlotButton 0 (8, 30); SlotButton 0 (8, 45)];
     [SlotButton 0 (9, 0)]] ++ times_keyboard_tail 0 /\
  exists slot_rows,
    times_keyboard_rows 0 slots = slot_rows ++ times_keyboard_tail 0 /\
    List.concat slot_rows = map (fun dt => SlotButton 0 (strftime_HM dt)) slots /\
    Forall (fun r => (1 <= List.length r <= 3)%nat) slot_rows /\
    Forall (fun r => List.length r = 3%nat) (removelast slot_rows).
Proof.
  intros slots. split; [vm_compute; reflexivity|].
  apply (times_keyboard_rows_of_three 0 slots). discriminate.
Defined.

(** X15. Picking the button of a slot of day [d] gives a draft with
    allow_overlap false that starts at the slot cut down to its minute:
    the label keeps hours and minutes only, so the start is at most the
    slot and less than a minute before it. *)
Theorem picked_slot_starts_at_its_minute
    (draft : booking) (d : date_cls) (slot : datetime) :
  d * DAY <= slot < (d + 1) * DAY ->
  let b := time_pick_from_slots draft d slot in
  _dt_on (b_date b) (b_time b) = replace_second0 slot /\
  slot - MINUTE < _dt_on (b_date b) (b_time b) <= slot /\
  b_allow_overlap b = false /\ b_service b = b_service draft.
Proof.
  intros Hday b. subst b. unfold time_pick_from_slots.
  cbn [b_date b_time b_allow_overlap b_service].
  assert (E : _dt_on d (strftime_HM slot) = replace_second0 slot) by clock_lia.
  rewrite E. split; [reflexivity|]. split; [clock_lia | auto].
Qed.

Lemma picked_slot_starts_at_its_minute_witness :
  let b := time_pick_from_slots (sample_draft 0 (0, 0) true) 0 (at_clock 0 10 0 30) in
  _dt_on (b_date b) (b_time b) = at_clock 0 10 0 0.
Proof.
  intros b.
  destruct (picked_slot_starts_at_its_minute (sample_draft 0 (0, 0) true) 0
              (at_clock 0 10 0 30)) as (E & _).
  - vm_compute. split; [discriminate | reflexivity].
  - subst b. rewrite E. reflexivity.
Defined.

(* ------------------------------------------------------------------ *)
(** ** The confirming step                                             *)
(* ------------------------------------------------------------------ *)

Lemma send_admin_log ids msg :
  send_admin ids msg = (tt, map (fun cid => AdminMessage cid msg) ids).
Proof.
  induction ids as [|cid ids IH]; [reflexivity|].
  cbn [send_admin]. rewrite bind_eq, IH. reflexivity.
Qed.

Lemma reservation_log cal b :
  snd (create_event_on_calendar cal b) = [] \/
  exists body, snd (create_event_on_calendar cal b) = [CalendarInsert body].
Proof.
  unfold create_event_on_calendar, insert_event.
  destruct (cal_service cal); cbn [negb]; [|now left].
  destruct (b_allow_overlap b); cbn [negb].
  - right. rewrite bind_eq. simpl. destruct (events_insert cal _) as [[? ?]|]; eauto.
  - destruct (find _ _); [now left|].
    right. rewrite bind_eq. simpl. destruct (events_insert cal _) as [[? ?]|]; eauto.
Qed.

Lemma conflict_log_empty cal b :
  is_conflict (fst (create_event_on_calendar cal b)) = true ->
  snd (create_event_on_calendar cal b) = [].
Proof.
  unfold create_event_on_calendar, insert_event.
  destruct (cal_service cal); cbn [negb]; [|reflexivity].
  destruct (b_allow_overlap b); cbn [negb].
  - rewrite bind_eq. simpl. destruct (events_insert cal _) as [[? ?]|]; discriminate.
  - destruct (find _ _); [reflexivity|].
    rewrite bind_eq. simpl. destruct (events_insert cal _) as [[? ?]|]; discriminate.
Qed.

Lemma csv_rows_app l1 l2 : csv_rows (l1 ++ l2) = csv_rows l1 ++ csv_rows l2.
Proof.
  induction l1 as [|[] l1 IH]; simpl; try exact IH; [reflexivity|]. now rewrite IH.
Qed.

Lemma sheet_rows_app l1 l2 : sheet_rows (l1 ++ l2) = sheet_rows l1 ++ sheet_rows l2.
Proof.
  induction l1 as [|[] l1 IH]; simpl; try exact IH; [reflexivity|]. now rewrite IH.
Qed.

Lemma admin_messages_app l1 l2 :
  admin_messages (l1 ++ l2) = admin_messages l1 ++ admin_messages l2.
Proof.
  induction l1 as [|[] l1 IH]; simpl; try exact IH; [reflexivity|]. now rewrite IH.
Qed.

Lemma edits_app l1 l2 : edits (l1 ++ l2) = edits l1 ++ edits l2.
Proof.
  induction l1 as [|[] l1 IH]; simpl; try exact IH; [reflexivity|]. now rewrite IH.
Qed.

Lemma admin_messages_sent ids msg :
  admin_messages (map (fun cid => AdminMessage cid msg) ids) =
  map (fun cid => (cid, msg)) ids.
Proof. induction ids; simpl; [reflexivity | now f_equal]. Qed.

Lemma no_rows_in_admin ids msg :
  csv_rows (map (fun cid => AdminMessage cid msg) ids) = [] /\
  sheet_rows (map (fun cid => AdminMessage cid msg) ids) = [] /\
  edits (map (fun cid => AdminMessage cid msg) ids) = [].
Proof. induction ids; simpl; auto. Qed.

(** X16. When the reservation conflicts at confirmation, the confirming
    step inserts no event, writes no row to the CSV or to the sheet and
    sends nothing to the admins; the one edit of the message it asks for
    says that the time is taken, with the keyboard of the slots computed
    afresh for the draft's date and service; the conversation goes back
    to the choice of time and the draft is kept. *)
Theorem conflict_at_confirm_writes_nothing
    (e : env) (now : datetime) (ts username : string) (draft : booking) :
  let b := set_stamp draft ts username in
  let out := book_confirm e now ts username book_send draft in
  is_conflict (fst (create_event_on_calendar (env_cal e) b)) = true ->
  fst out = (ASK_TIME, Some b) /\
  calendar_inserts (snd out) = [] /\
  csv_rows (snd out) = [] /\
  sheet_rows (snd out) = [] /\
  admin_messages (snd out) = [] /\
  edits (snd out) =
    [("Упс, это время уже занято. Выберите другое:"%string,
      times_keyboard (b_date draft)
        (compute_free_slots_for_date (env_cal e) now (b_date draft)
           (_service_duration_minutes (b_service draft))))].
Proof.
  intros b out Hc. subst out. unfold book_confirm. fold b.
  pose proof (conflict_log_empty _ _ Hc) as Hlog.
  destruct (create_event_on_calendar (env_cal e) b) as [r log].
  cbn [fst snd] in *. subst log.
  destruct r as [eid link o|i|]; try discriminate.
  rewrite !bind_eq. repeat split.
Qed.

Lemma conflict_at_confirm_writes_nothing_witness :
  let cal := calendar_with [timed_event (at_clock 0 10 0 0) (at_clock 0 11 0 0)] in
  let e := mk_env cal true [1001] in
  fst (book_confirm e (at_clock 0 7 0 0) "2025-10-05T07:00:00" "anna" book_send
         (sample_draft 0 (10, 30) false))
  = (ASK_TIME, Some (set_stamp (sample_draft 0 (10, 30) false)
                       "2025-10-05T07:00:00" "anna")).
Proof.
  intros cal e.
  destruct (conflict_at_confirm_writes_nothing e (at_clock 0 7 0 0)
              "2025-10-05T07:00:00" "anna" (sample_draft 0 (10, 30) false))
    as (A & _).
  - vm_compute. reflexivity.
  - exact A.
Defined.

(** X17. When the reservation does not conflict, whatever the calendar
    answered, the confirming step ends the conversation, drops the draft,
    and has written exactly one row to the bookings CSV, with the draft's
    fields, the time stamp and user name of the submission, and the event
    id and link of the calendar (both empty when no event was created);
    it has written the same to the sheet once when the sheet is
    reachable, has notified every admin chat once, in order, flagging the
    overlap, and has shown one message: the thanks, then the overlap
    warning when the event overlaps, then the calendar note when no event
    was created. *)
Theorem confirmed_booking_written_once
    (e : env) (now : datetime) (ts username : string) (draft : booking) :
  let b := set_stamp draft ts username in
  let r := fst (create_event_on_calendar (env_cal e) b) in
  let eid := match r with Created i _ _ => i | _ => ""%string end in
  let link := match r with Created _ l _ => l | _ => ""%string end in
  let overlapped := match r with Created _ _ o => o | _ => false end in
  let out := book_confirm e now ts username book_send draft in
  is_conflict r = false ->
  fst out = (conversation_END, None) /\
  csv_rows (snd out) =
    [mk_csv_row ts username (b_name draft) (b_phone draft) (b_service draft)
       (b_date draft) (b_time draft) (b_notes draft) eid link] /\
  sheet_rows (snd out) =
    (if env_gsheet e then
       [mk_sheet_row (b_name draft) (at_username username) (b_phone draft)
          (b_service draft) (_service_price (b_service draft)) (b_date draft)
          (b_time draft) (_service_duration_minutes (b_service draft))
          (b_notes draft) ts eid link]
     else []) /\
  admin_messages (snd out) =
    map (fun cid => (cid, mk_admin_note (set_calendar_fields b eid link) overlapped))
        (env_admin_ids e) /\
  edits (snd out) =
    [((thanks_text ++ (if overlapped then overlap_text else "")
         ++ match r with Created _ _ _ => "" | _ => calendar_note_text end)%string,
      main_menu_keyboard)].
Proof.
  intros b r eid link overlapped out Hc. subst out. unfold book_confirm. fold b.
  pose proof (reservation_log (env_cal e) b) as Hlog.
  subst r eid link overlapped.
  destruct (create_event_on_calendar (env_cal e) b) as [r log].
  cbn [fst snd] in *.
  assert (Hl : csv_rows log = [] /\ sheet_rows log = [] /\
               admin_messages log = [] /\ edits log = []).
  { destruct Hlog as [->|(body & ->)]; simpl; auto. }
  destruct Hl as (L1 & L2 & L3 & L4).
  destruct r as [i l o|j|]; [|discriminate|].
  - destruct (no_rows_in_admin (env_admin_ids e)
                (mk_admin_note (set_calendar_fields b i l) o)) as (N1 & N2 & N3).
    pose proof (admin_messages_sent (env_admin_ids e)
                  (mk_admin_note (set_calendar_fields b i l) o)) as N4.
    rewrite !bind_eq. cbn [fst snd]. rewrite send_admin_log. cbn [fst snd].
    unfold append_booking_row_csv, append_gsheet_row, tell, ret.
    destruct (env_gsheet e); cbn [negb fst snd];
      rewrite ?csv_rows_app, ?sheet_rows_app, ?admin_messages_app, ?edits_app,
              L1, L2, L3, L4, N1, N2, N3, N4;
      cbn [csv_rows sheet_rows admin_messages edits app];
      rewrite ?app_nil_r; repeat split; reflexivity.
  - destruct (no_rows_in_admin (env_admin_ids e)
                (mk_admin_note (set_calendar_fields b "" "") false)) as (N1 & N2 & N3).
    pose proof (admin_messages_sent (env_admin_ids e)
                  (mk_admin_note (set_calendar_fields b "" "") false)) as N4.
    rewrite !bind_eq. cbn [fst snd]. rewrite send_admin_log. cbn [fst snd].
    unfold append_booking_row_csv, append_gsheet_row, tell, ret.
    destruct (env_gsheet e); cbn [negb fst snd];
      rewrite ?csv_rows_app, ?sheet_rows_app, ?admin_messages_app, ?edits_app,
              L1, L2, L3, L4, N1, N2, N3, N4;
      cbn [csv_rows sheet_rows admin_messages edits app];
      rewrite ?app_nil_r; repeat split; reflexivity.
Qed.

Lemma confirmed_booking_written_once_witness :
  let cal := calendar_with [timed_event (at_clock 0 10 0 0) (at_clock 0 11 0 0)] in
  let e := mk_env cal false [1001; 1002] in
  let out := book_confirm e (at_clock 0 7 0 0) "2025-10-05T07:00:00" "anna" book_send
               (sample_draft 0 (10, 30) true) in
  fst out = (conversation_END, None) /\
  csv_rows (snd out) =
    [mk_csv_row "2025-10-05T07:00:00" "anna" "Anna" "+70000000000" styling 0 (10, 30)
       "" "evt1" "https://calendar.example/evt1"] /\
  edits (snd out) = [((thanks_text ++ overlap_text)%string, main_menu_keyboard)].
Proof.
  intros cal e out.
  destruct (confirmed_booking_written_once e (at_clock 0 7 0 0) "2025-10-05T07:00:00"
              "anna" (sample_draft 0 (10, 30) true)) as (A & B & _ & _ & E).
  - vm_compute. reflexivity.
  - split; [exact A|]. split; [exact B|]. exact E.
Defined.

(* ------------------------------------------------------------------ *)
(** ** The two views of the reviews                                    *)
(* ------------------------------------------------------------------ *)

Lemma string_app_assoc (a b c : string) :
  ((a ++ b) ++ c)%string = (a ++ (b ++ c))%string.
Proof. induction a as [|ch a IH]; simpl; [reflexivity | now rewrite IH]. Qed.

Lemma string_app_nil_r (a : string) : (a ++ "")%string = a.
Proof. induction a as [|ch a IH]; simpl; [reflexivity | now rewrite IH]. Qed.

Lemma concat_snoc sep x l y :
  String.concat sep ((x :: l) ++ [y]) =
  (String.concat sep (x :: l) ++ sep ++ y)%string.
Proof.
  revert x. induction l as [|z l IH]; intros x; [reflexivity|].
  change (String.concat sep ((x :: z :: l) ++ [y]))
    with (x ++ sep ++ String.concat sep ((z :: l) ++ [y]))%string.
  rewrite IH.
  change (String.concat sep (x :: z :: l))
    with (x ++ sep ++ String.concat sep (z :: l))%string.
  now rewrite !string_app_assoc.
Qed.

(** X18. Whenever there is a stored review, the /reviews command shows
    the title followed by one line for each of the latest 10 reviews,
    newest first: line [i] is that of the review [i] places before the
    end of the stored list, and there are as many lines as stored reviews
    up to 10.  The menu view with the default limit of 10 shows the same
    text, and then adds the line saying how many are shown when more than
    10 are stored. *)
Theorem review_views_agree (stored : list review) :
  stored <> [] ->
  let shown := firstn 10 (rev stored) in
  cmd_reviews stored = String.concat nl (reviews_title :: map review_line shown) /\
  List.length shown = Nat.min 10 (List.length stored) /\
  (forall i, (i < List.length shown)%nat ->
     nth_error shown i = nth_error stored (List.length stored - S i)) /\
  reviews_text 10 stored =
  (cmd_reviews stored ++
   (if (10 <? List.length stored)%nat
    then nl ++ reviews_footer 10 (List.length stored) else ""))%string.
Proof.
  intros Hne shown.
  assert (Hc : cmd_reviews stored =
               String.concat nl (reviews_title :: map review_line shown)).
  { subst shown. unfold cmd_reviews.
    destruct stored as [|a l]; [congruence|]. now rewrite firstn_rev. }
  assert (Hlen : List.length shown = Nat.min 10 (List.length stored)).
  { subst shown. now rewrite length_firstn, length_rev. }
  split; [exact Hc|]. split; [exact Hlen|]. split.
  - intros i Hi. subst shown. rewrite nth_error_firstn, nth_error_rev.
    rewrite Hlen in Hi.
    destruct (Nat.ltb_spec i 10); [|lia].
    destruct (Nat.ltb_spec i (List.length stored)); [reflexivity | lia].
  - rewrite Hc. subst shown. unfold reviews_text.
    destruct (rev stored) as [|r0 rs] eqn:Er.
    { apply (f_equal (@List.length review)) in Er.
      rewrite length_rev in Er. destruct stored; [congruence | discriminate Er]. }
    rewrite <- (length_rev stored), Er.
    destruct (10 <? List.length (r0 :: rs))%nat.
    + rewrite concat_snoc. reflexivity.
    + now rewrite string_app_nil_r.
Qed.

Lemma review_views_agree_witness :
  let stored := [mk_review "Анна" "Спасибо!" "01.10.2025" "anna";
                 mk_review "" "Очень понравилось" "02.10.2025" "olga"] in
  cmd_reviews stored =
    String.concat nl
      [reviews_title;
       review_line (mk_review "" "Очень понравилось" "02.10.2025" "olga");
       review_line (mk_review "Анна" "Спасибо!" "01.10.2025" "anna")] /\
  reviews_text 10 stored = cmd_reviews stored.
Proof.
  intros stored.
  destruct (review_views_agree stored) as (A & _ & _ & B); [discriminate|].
  split; [exact A|]. rewrite B. vm_compute. reflexivity.
Defined.

(* ------------------------------------------------------------------ *)
(** ** The merged list as a canonical form                             *)
(* ------------------------------------------------------------------ *)

Lemma canonical_unique l1 l2 :
  canonical l1 -> canonical l2 ->
  (forall t, covers l1 t <-> covers l2 t) -> l1 = l2.
Proof.
  intros [S1 V1]. revert l2. induction S1 as [|a r1 S1 IH Ha]; intros l2 [S2 V2] Hext.
  - destruct l2 as [|b r2]; [reflexivity|]. exfalso.
    inversion V2 as [|? ? Hb _]; subst. unfold valid_interval in Hb.
    destruct (proj2 (Hext (fst b))) as (i & [] & _).
    exists b. unfold inside. simpl. split; [auto | lia].
  - inversion V1 as [|? ? Hva V1']; subst. unfold valid_interval in Hva.
    destruct S2 as [|b r2 S2 Hb].
    { exfalso. destruct (proj1 (Hext (fst a))) as (i & [] & _).
      exists a. unfold inside. simpl. split; [auto | lia]. }
    inversion V2 as [|? ? Hvb V2']; subst. unfold valid_interval in Hvb.
    rewrite Forall_forall in Ha, Hb.
    assert (Hlo1 : forall i, In i (a :: r1) -> fst a <= fst i).
    { intros i [<-|Hi]; [lia|]. destruct (Ha i Hi) as [H _]. exact H. }
    assert (Hlo2 : forall i, In i (b :: r2) -> fst b <= fst i).
    { intros i [<-|Hi]; [lia|]. destruct (Hb i Hi) as [H _]. exact H. }
    assert (Efst : fst a = fst b).
    { destruct (proj1 (Hext (fst a))) as (i & Hi & Hin).
      { exists a. unfold inside. simpl. split; [auto | lia]. }
      destruct (proj2 (Hext (fst b))) as (j & Hj & Hjn).
      { exists b. unfold inside. simpl. split; [auto | lia]. }
      specialize (Hlo2 i Hi). specialize (Hlo1 j Hj). unfold inside in *. lia. }
    assert (Esnd : snd a = snd b).
    { destruct (Z.lt_trichotomy (snd a) (snd b)) as [H|[H|H]]; [|exact H|]; exfalso.
      - destruct (proj2 (Hext (snd a))) as (i & [<-|Hi] & Hin).
        { exists b. unfold inside. simpl. split; [auto | lia]. }
        + unfold inside in Hin. lia.
        + destruct (Ha i Hi) as [_ Hap]. unfold inside, apart in *. lia.
      - destruct (proj1 (Hext (snd b))) as (i & [<-|Hi] & Hin).
        { exists a. unfold inside. simpl. split; [auto | lia]. }
        + unfold inside in Hin. lia.
        + destruct (Hb i Hi) as [_ Hap]. unfold inside, apart in *. lia. }
    assert (a = b) by (destruct a, b; simpl in *; congruence). subst b.
    f_equal. apply IH; [exact V1' | split; assumption |].
    intros t. split.
    + intros (i & Hi & Hin).
      destruct (proj1 (Hext t)) as (j & [<-|Hj] & Hjn); [exists i; simpl; auto| |].
      * destruct (Ha i Hi) as [_ Hap]. unfold inside, apart in *. lia.
      * exists j. auto.
    + intros (i & Hi & Hin).
      destruct (proj2 (Hext t)) as (j & [<-|Hj] & Hjn); [exists i; simpl; auto| |].
      * destruct (Hb i Hi) as [_ Hap]. unfold inside, apart in *. lia.
      * exists j. auto.
Qed.

Lemma merge_canonical l : Forall valid_interval l -> canonical (merge l).
Proof. intros Hv. split; [apply merge_sorted | now apply merge_valid]. Qed.

(** X19. The merged list depends only on the instants covered: two
    lists of intervals with start < end that cover the same instants, in
    whatever order and however cut up, merge to the same list; and a list
    that is already ascending, apart and with start < end is returned as
    it is. *)
Theorem merge_depends_on_covered_points_only (l l' : list interval) :
  Forall valid_interval l -> Forall valid_interval l' ->
  (forall t, covers l t <-> covers l' t) ->
  merge l = merge l' /\
  (StronglySorted (fun a b => start_le a b /\ apart a b) l -> merge l = l).
Proof.
  intros Hv Hv' Hext. split.
  - apply canonical_unique; try now apply merge_canonical.
    intros t. now rewrite !merge_covers.
  - intros Hs. apply canonical_unique.
    + now apply merge_canonical.
    + split; assumption.
    + intros t. apply merge_covers.
Qed.

Lemma merge_depends_on_covered_points_only_witness :
  merge [(1, 4); (6, 9); (2, 7)] = merge [(6, 9); (1, 6)].
Proof.
  apply (merge_depends_on_covered_points_only [(1, 4); (6, 9); (2, 7)] [(6, 9); (1, 6)]).
  - repeat constructor.
  - repeat constructor.
  - intros t. unfold covers, inside. simpl. split.
    + intros (i & [<-|[<-|[<-|[]]]] & H); simpl in H.
      * exists (1, 6). simpl. split; [auto | lia].
      * exists (6, 9). simpl. split; [auto | lia].
      * destruct (Z.lt_ge_cases t 6).
        -- exists (1, 6). simpl. split; [auto | lia].
        -- exists (6, 9). simpl. split; [auto | lia].
    + intros (i & [<-|[<-|[]]] & H); simpl in H.
      * exists (6, 9). simpl. split; [auto | lia].
      * destruct (Z.lt_ge_cases t 4).
        -- exists (1, 4). simpl. split; [auto | lia].
        -- exists (2, 7). simpl. split; [auto | lia].
Defined.

(* ------------------------------------------------------------------ *)
(** ** Reading a printed duration                                      *)
(* ------------------------------------------------------------------ *)

Ltac ascii_code :=
  match goal with
  | |- context [Z.of_nat (nat_of_ascii ?c)] =>
      let v := eval vm_compute in (Z.of_nat (nat_of_ascii c)) in
      change (Z.of_nat (nat_of_ascii c)) with v
  end.

Lemma scan_printed_acc u : forall acc nums s,
  scan_numbers (NilEmpty.string_of_uint u ++ s) (Some (Z.of_nat acc)) nums =
  scan_numbers s (Some (Z.of_nat (Nat.of_uint_acc u acc))) nums.
Proof.
  induction u as [|u IH|u IH|u IH|u IH|u IH|u IH|u IH|u IH|u IH|u IH];
    intros acc nums s; [reflexivity|..];
    cbn [NilEmpty.string_of_uint append scan_numbers Nat.of_uint_acc];
    change (isdigit _) with true; cbn iota; unfold digit_value;
    rewrite <- IH; do 2 f_equal; rewrite Nat.tail_mul_spec;
    ascii_code; lia.
Qed.

Lemma to_uint_nonnil n : Nat.to_uint n <> Decimal.Nil.
Proof.
  rewrite <- (DecimalNat.Unsigned.of_to n) at 1.
  rewrite DecimalNat.Unsigned.to_of. apply DecimalFacts.unorm_nonnil.
Qed.

Lemma scan_printed n nums s :
  scan_numbers (str_of_nat n ++ s) None nums =
  scan_numbers s (Some (Z.of_nat n)) nums.
Proof.
  unfold str_of_nat. pose proof (to_uint_nonnil n) as Hn.
  rewrite <- (DecimalNat.Unsigned.of_to n) at 2. unfold Nat.of_uint.
  destruct (Nat.to_uint n) as [|u|u|u|u|u|u|u|u|u|u]; [congruence|..];
    cbn [NilEmpty.string_of_uint append scan_numbers Nat.of_uint_acc];
    change (isdigit _) with true; cbn iota; unfold digit_value;
    rewrite <- scan_printed_acc; do 2 f_equal; rewrite Nat.tail_mul_spec;
    ascii_code; lia.
Qed.

Lemma scan_no_digit_some s n nums :
  no_digit s = true -> scan_numbers s (Some n) nums = nums ++ [n].
Proof.
  destruct s as [|ch s]; [reflexivity|]. simpl.
  rewrite andb_true_iff, negb_true_iff. intros [-> H].
  now apply scan_numbers_no_digit.
Qed.

Lemma scan_no_digit_prefix p s nums :
  no_digit p = true ->
  scan_numbers (p ++ s) None nums = scan_numbers s None nums.
Proof.
  induction p as [|ch p IH]; [reflexivity|]. simpl.
  rewrite andb_true_iff, negb_true_iff. intros [-> H]. now apply IH.
Qed.

Lemma scan_separator p s n nums :
  no_digit p = true -> p <> ""%string ->
  scan_numbers (p ++ s) (Some n) nums = scan_numbers s None (nums ++ [n]).
Proof.
  destruct p as [|ch p]; [congruence|]. simpl.
  rewrite andb_true_iff, negb_true_iff. intros [-> H] _.
  now apply scan_no_digit_prefix.
Qed.

Lemma remove_spaces_app a b :
  remove_spaces (a ++ b) = (remove_spaces a ++ remove_spaces b)%string.
Proof.
  induction a as [|ch a IH]; [reflexivity|]. simpl.
  destruct (Ascii.eqb ch " "); [exact IH | simpl; now rewrite IH].
Qed.

Lemma remove_spaces_printed n : remove_spaces (str_of_nat n) = str_of_nat n.
Proof.
  unfold str_of_nat.
  induction (Nat.to_uint n) as [|u IH|u IH|u IH|u IH|u IH|u IH|u IH|u IH|u IH|u IH];
    [reflexivity|..]; simpl; now rewrite IH.
Qed.

Lemma round_half_nearest n :
  -1 <= 2 * round_half n - n <= 1 /\ (Z.even n = false -> Z.even (round_half n) = true).
Proof.
  unfold round_half. pose proof (Z.div_mod n 2 ltac:(lia)) as E.
  pose proof (Z.mod_pos_bound n 2 ltac:(lia)) as B.
  destruct (Z.even n) eqn:En; [split; [|discriminate]|].
  - rewrite Zeven_mod in En. apply Z.eqb_eq in En. lia.
  - assert (Hm : n mod 2 = 1).
    { rewrite Zeven_mod in En. apply Z.eqb_neq in En. lia. }
    destruct (Z.even (n / 2)) eqn:Eq; (split; [lia|intros _]); [exact Eq|].
    rewrite Z.even_add, Eq. reflexivity.
Qed.

(** X20. Reading back a printed range, for two numbers whose sum is at
    most 2^53 and for a separator and a tail in which the code finds no
    digit (ASCII characters other than 0..9, en dashes, small Cyrillic
    letters): a text made of the first number, the separator, which is
    not only spaces, the second number and the tail is read as the mean
    of the two numbers rounded to the nearest integer, halves going to
    the even one; a text made of the first number and the tail is read as
    that number. *)
Theorem extract_minutes_of_printed_range (a b : nat) (sep tail : string) :
  Z.of_nat a + Z.of_nat b <= 2 ^ 53 ->
  digit_free sep -> remove_spaces sep <> ""%string -> digit_free tail ->
  let m := _extract_minutes_from_duration_string
             (str_of_nat a ++ sep ++ str_of_nat b ++ tail) in
  m = round_half (Z.of_nat a + Z.of_nat b) /\
  -1 <= 2 * m - (Z.of_nat a + Z.of_nat b) <= 1 /\
  (Z.even (Z.of_nat a + Z.of_nat b) = false -> Z.even m = true) /\
  _extract_minutes_from_duration_string (str_of_nat a ++ tail) = Z.of_nat a.
Proof.
  intros _ Hsep Hne Htail m.
  apply digit_free_no_digit in Hsep, Htail.
  assert (Em : m = round_half (Z.of_nat a + Z.of_nat b)).
  { subst m. unfold _extract_minutes_from_duration_string.
    rewrite !remove_spaces_app, !remove_spaces_printed.
    rewrite scan_printed.
    rewrite (scan_separator _ _ _ _ (no_digit_remove_spaces _ Hsep) Hne).
    rewrite scan_printed.
    rewrite (scan_no_digit_some _ _ _ (no_digit_remove_spaces _ Htail)).
    reflexivity. }
  split; [exact Em|]. rewrite Em.
  destruct (round_half_nearest (Z.of_nat a + Z.of_nat b)) as [A B].
  split; [exact A|]. split; [exact B|].
  unfold _extract_minutes_from_duration_string.
  rewrite remove_spaces_app, remove_spaces_printed, scan_printed.
  rewrite (scan_no_digit_some _ _ _ (no_digit_remove_spaces _ Htail)).
  reflexivity.
Qed.

Lemma extract_minutes_of_printed_range_witness :
  _extract_minutes_from_duration_string "60–75 мин" = 68 /\
  _extract_minutes_from_duration_string "30 мин" = 30.
Proof.
  destruct (extract_minutes_of_printed_range 60 75 "–" " мин") as (A & _ & _ & _);
    [vm_compute; discriminate | digit_free_text | discriminate | digit_free_text |].
  destruct (extract_minutes_of_printed_range 30 0 "–" " мин") as (_ & _ & _ & B);
    [vm_compute; discriminate | digit_free_text | discriminate | digit_free_text |].
  split; [exact A | exact B].
Defined.

(* ------------------------------------------------------------------ *)
(** ** The user name in the sheet                                      *)
(* ------------------------------------------------------------------ *)

(** X21. The user name written to the sheet is empty when the user name
    is empty and begins with one "@" otherwise; a name that already
    begins with "@" is written as it is, so that prefixing twice changes
    nothing. *)
Theorem at_username_prefixes_once (u : string) :
  at_username (at_username u) = at_username u /\
  (u = ""%string -> at_username u = ""%string) /\
  (u <> ""%string -> exists rest, at_username u = String "@" rest) /\
  (forall rest, at_username (String "@" rest) = String "@" rest).
Proof.
  unfold at_username. destruct u as [|c u].
  - repeat split; try reflexivity. congruence.
  - destruct (Ascii.eqb_spec c "@") as [->|Hc].
    + repeat split; try reflexivity; try discriminate. eauto.
    + repeat split; try reflexivity; try discriminate. simpl. eauto.
Qed.

(* ------------------------------------------------------------------ *)
(** ** The inline calendar                                             *)
(* ------------------------------------------------------------------ *)

Lemma days_in_month_bounds y m : 28 <= days_in_month y m <= 31.
Proof.
  unfold days_in_month. destruct (m =? 2); [destruct (is_leap y); lia|].
  destruct ((m =? 4) || (m =? 6) || (m =? 9) || (m =? 11)); lia.
Qed.

Lemma plus_days_in_month k : forall y m d,
  d + Z.of_nat k <= days_in_month y m ->
  plus_days k (mk_ymd y m d) = mk_ymd y m (d + Z.of_nat k).
Proof.
  induction k as [|k IH]; intros y m d H.
  - simpl. f_equal. lia.
  - change (plus_days (S k) (mk_ymd y m d))
      with (next_day (plus_days k (mk_ymd y m d))).
    rewrite IH by lia. unfold next_day. destruct (Z.ltb_spec (d + Z.of_nat k) (days_in_month y m)); [|lia].
    f_equal. lia.
Qed.

Lemma minus_days_in_month k : forall y m d,
  1 <= d - Z.of_nat k ->
  minus_days k (mk_ymd y m d) = mk_ymd y m (d - Z.of_nat k).
Proof.
  induction k as [|k IH]; intros y m d H.
  - simpl. f_equal. lia.
  - change (minus_days (S k) (mk_ymd y m d))
      with (prev_day (minus_days k (mk_ymd y m d))).
    rewrite IH by lia. unfold prev_day. destruct (Z.ltb_spec 1 (d - Z.of_nat k)); [|lia].
    f_equal. lia.
Qed.

Lemma plus_days_add a b x : plus_days (a + b) x = plus_days a (plus_days b x).
Proof. unfold plus_days. apply Nat.iter_add. Qed.

Lemma minus_days_add a b x : minus_days (a + b) x = minus_days a (minus_days b x).
Proof. unfold minus_days. apply Nat.iter_add. Qed.

Lemma two_months_at_least_59 y m :
  1 <= m <= 11 -> 59 <= days_in_month y m + days_in_month y (m + 1).
Proof.
  intros Hm.
  assert (H : m = 1 \/ m = 2 \/ m = 3 \/ m = 4 \/ m = 5 \/ m = 6 \/ m = 7 \/
              m = 8 \/ m = 9 \/ m = 10 \/ m = 11) by lia.
  unfold days_in_month.
  repeat (destruct H as [->|H]; [simpl; destruct (is_leap y); lia|]).
  subst m. simpl. lia.
Qed.

(** The month after and the month before a month. *)
Lemma plus_31_next_month y m d :
  1 <= m <= 12 -> 1 <= d <= 28 ->
  replace_day15 (plus_days 31 (mk_ymd y m d)) =
  if m =? 12 then mk_ymd (y + 1) 1 15 else mk_ymd y (m + 1) 15.
Proof.
  intros Hm Hd. pose proof (days_in_month_bounds y m) as Hdim.
  set (k := Z.to_nat (days_in_month y m - d)).
  replace 31%nat with ((30 - k) + (1 + k))%nat by lia.
  rewrite plus_days_add, (plus_days_add 1 k).
  rewrite plus_days_in_month by lia.
  replace (d + Z.of_nat k) with (days_in_month y m) by lia.
  change (plus_days 1 ?x) with (next_day x). unfold next_day.
  rewrite Z.ltb_irrefl.
  destruct (Z.ltb_spec m 12) as [Hlt|Hge].
  - destruct (Z.eqb_spec m 12); [lia|].
    pose proof (two_months_at_least_59 y m ltac:(lia)).
    rewrite plus_days_in_month by lia. reflexivity.
  - destruct (Z.eqb_spec m 12); [|lia]. subst m.
    assert (days_in_month y 12 = 31) by reflexivity.
    assert (days_in_month (y + 1) 1 = 31) by reflexivity.
    rewrite plus_days_in_month by lia. reflexivity.
Qed.

Lemma minus_31_prev_month y m d :
  1 <= m <= 12 -> 4 <= d <= 31 ->
  replace_day15 (minus_days 31 (mk_ymd y m d)) =
  if m =? 1 then mk_ymd (y - 1) 12 15 else mk_ymd y (m - 1) 15.
Proof.
  intros Hm Hd.
  set (k := Z.to_nat (d - 1)).
  replace 31%nat with ((30 - k) + (1 + k))%nat by lia.
  rewrite minus_days_add, (minus_days_add 1 k).
  rewrite minus_days_in_month by lia.
  replace (d - Z.of_nat k) with 1 by lia.
  change (minus_days 1 ?x) with (prev_day x). unfold prev_day.
  rewrite Z.ltb_irrefl.
  destruct (Z.ltb_spec 1 m) as [Hlt|Hge].
  - destruct (Z.eqb_spec m 1); [lia|].
    pose proof (days_in_month_bounds y (m - 1)).
    rewrite minus_days_in_month by lia. reflexivity.
  - destruct (Z.eqb_spec m 1); [|lia].
    rewrite minus_days_in_month by lia. reflexivity.
Qed.

Lemma grid_fold year month today days :
  forall rows row,
    (List.length row < 7)%nat ->
    exists grid row',
      fold_left (grid_step year month today) days (rows, row) = (rows ++ grid, row') /\
      Forall (fun r => List.length r = 7%nat) grid /\
      (List.length row' < 7)%nat /\
      List.concat grid ++ row' =
        row ++ map (fun d => day_button year month d today) days.
Proof.
  induction days as [|d days IH]; intros rows row Hrow.
  - exists [], row. simpl. rewrite !app_nil_r. auto.
  - cbn [fold_left grid_step].
    destruct (Nat.eqb_spec (List.length (row ++ [day_button year month d today])) 7)
      as [E|E].
    + destruct (IH (rows ++ [row ++ [day_button year month d today]]) [])
        as (grid & row' & Hf & Hg & Hr & Hc); [simpl; lia|].
      exists ((row ++ [day_button year month d today]) :: grid), row'.
      rewrite Hf, <- app_assoc. split; [reflexivity|].
      split; [now constructor|]. split; [exact Hr|].
      simpl. rewrite <- !app_assoc. simpl in Hc. rewrite Hc. reflexivity.
    + destruct (IH rows (row ++ [day_button year month d today]))
        as (grid & row' & Hf & Hg & Hr & Hc).
      { rewrite length_app in *. simpl in *. lia. }
      exists grid, row'. rewrite Hf. split; [reflexivity|].
      split; [exact Hg|]. split; [exact Hr|].
      rewrite Hc, <- app_assoc. reflexivity.
Qed.

Lemma month_days_In dim d : In d (month_days dim) <-> 1 <= d <= dim.
Proof.
  unfold month_days. rewrite in_map_iff. split.
  - intros (n & <- & Hn). apply in_seq in Hn. lia.
  - intros H. exists (Z.to_nat d). split; [lia|]. apply in_seq. lia.
Qed.

(** X22. The month keyboard is the title row, the row of the seven week
    days, the day grid and the navigation row.  Every row of the grid
    holds exactly 7 buttons; read in order, the grid is as many blanks as
    the week day of the 1st (Monday 0), then one button for each day of
    the month from 1 to the last in ascending order, then fewer than 7
    blanks.  A day can be picked only when it is a day of the shown month
    that is not before today. *)
Theorem month_keyboard_grid (year month : Z) (anchor : option ymd) (today : ymd) :
  let first_weekday := fst (monthrange year month) in
  let days_in_month := snd (monthrange year month) in
  let kb := build_month_keyboard year month anchor today in
  0 <= first_weekday <= 6 /\
  (exists grid nav pad,
     kb = [[TitleButton year month]; map WeekdayButton (seq 0 7)] ++ grid ++ [nav] /\
     Forall (fun r => List.length r = 7%nat) grid /\
     (pad < 7)%nat /\
     List.concat grid =
       repeat BlankButton (Z.to_nat first_weekday)
       ++ map (fun d => day_button year month d today) (month_days days_in_month)
       ++ repeat BlankButton pad) /\
  (forall y m d, In (PickDayButton y m d) (List.concat kb) ->
     y = year /\ m = month /\ 1 <= d <= days_in_month /\
     ymd_ltb (mk_ymd y m d) today = false).
Proof.
  cbv zeta. unfold build_month_keyboard, monthrange. cbn [fst snd].
  set (fw := weekday (mk_ymd year month 1)).
  set (dim := days_in_month year month).
  assert (Hfw : 0 <= fw <= 6).
  { unfold fw, weekday. pose proof (Z.mod_pos_bound (toordinal (mk_ymd year month 1) + 6) 7).
    lia. }
  split; [exact Hfw|].
  destruct (grid_fold year month today (month_days dim)
              [[TitleButton year month]; map WeekdayButton (seq 0 7)]
              (repeat BlankButton (Z.to_nat fw)))
    as (grid & row' & Hf & Hg & Hr & Hc).
  { rewrite repeat_length. lia. }
  rewrite Hf.
  set (nav := [PrevMonthButton _ _; CancelButton; NextMonthButton _ _]).
  assert (Hnav : forall y m d, ~ In (PickDayButton y m d) nav).
  { intros y m d [H|[H|[H|[]]]]; discriminate H. }
  clearbody nav.
  assert (Hstruct : exists grid' pad,
            (match row' with
             | [] => [[TitleButton year month]; map WeekdayButton (seq 0 7)] ++ grid
             | _ :: _ => ([[TitleButton year month]; map WeekdayButton (seq 0 7)] ++ grid)
                         ++ [row' ++ repeat BlankButton (7 - List.length row')]
             end) ++ [nav]
            = [[TitleButton year month]; map WeekdayButton (seq 0 7)] ++ grid' ++ [nav] /\
            Forall (fun r => List.length r = 7%nat) grid' /\ (pad < 7)%nat /\
            List.concat grid' =
              repeat BlankButton (Z.to_nat fw)
              ++ map (fun d => day_button year month d today) (month_days dim)
              ++ repeat BlankButton pad).
  { destruct row' as [|b0 row'].
    - exists grid, 0%nat. rewrite app_nil_r in Hc. rewrite <- app_assoc.
      split; [reflexivity|]. split; [exact Hg|]. split; [lia|].
      simpl repeat. now rewrite app_nil_r.
    - exists (grid ++ [(b0 :: row') ++ repeat BlankButton (7 - List.length (b0 :: row'))]),
             (7 - List.length (b0 :: row'))%nat.
      split; [now rewrite <- !app_assoc|]. split.
      + apply Forall_app. split; [exact Hg|]. constructor; [|constructor].
        rewrite length_app, repeat_length. lia.
      + split; [cbn [List.length]; lia|].
        rewrite concat_app. cbn [List.concat]. rewrite app_nil_r, app_assoc, Hc.
        now rewrite <- !app_assoc. }
  destruct Hstruct as (grid' & pad & Hkb & Hg' & Hpad & Hc').
  split.
  - exists grid', nav, pad. auto.
  - intros y m d Hin. rewrite Hkb in Hin.
    rewrite !concat_app, Hc' in Hin. rewrite !in_app_iff in Hin.
    destruct Hin as [Hin|[[Hin|[Hin|Hin]]|Hin]].
    + simpl in Hin. repeat (destruct Hin as [Hin|Hin]; [discriminate Hin|]).
      destruct Hin.
    + apply repeat_spec in Hin. discriminate Hin.
    + apply in_map_iff in Hin as (d' & Hb & Hd'). unfold day_button in Hb.
      destruct (ymd_ltb (mk_ymd year month d') today) eqn:El; [discriminate Hb|].
      injection Hb as <- <- <-. apply month_days_In in Hd'. auto.
    + apply repeat_spec in Hin. discriminate Hin.
    + cbn [List.concat] in Hin. rewrite app_nil_r in Hin. now apply Hnav in Hin.
Qed.

(** X23. With an anchor in a month 1 to 12 whose day is from 4 to 28, and
    so with the 15th that the month links carry and that stands in for a
    missing anchor, the two month links of the navigation row lead to the
    month just before and the month just after the anchor's month, across
    the turn of the year as well. *)
Theorem month_links_are_adjacent
    (year month : Z) (today : ymd) (a_year a_month a_day : Z) :
  1 <= a_month <= 12 -> 4 <= a_day <= 28 ->
  last (build_month_keyboard year month (Some (mk_ymd a_year a_month a_day)) today) [] =
    [ (if a_month =? 1 then PrevMonthButton (a_year - 1) 12
       else PrevMonthButton a_year (a_month - 1));
      CancelButton;
      (if a_month =? 12 then NextMonthButton (a_year + 1) 1
       else NextMonthButton a_year (a_month + 1)) ] /\
  (1 <= month <= 12 ->
   last (build_month_keyboard year month None today) [] =
     [ (if month =? 1 then PrevMonthButton (year - 1) 12
        else PrevMonthButton year (month - 1));
       CancelButton;
       (if month =? 12 then NextMonthButton (year + 1) 1
        else NextMonthButton year (month + 1)) ]).
Proof.
  intros Hm Hd. unfold build_month_keyboard.
  destruct (monthrange year month) as [fw dim].
  destruct (fold_left _ _ _) as [rows row]. split.
  - rewrite last_last.
    rewrite plus_31_next_month, minus_31_prev_month by lia.
    destruct (a_month =? 1), (a_month =? 12); reflexivity.
  - intros Hmonth. rewrite last_last.
    rewrite plus_31_next_month, minus_31_prev_month by lia.
    destruct (month =? 1), (month =? 12); reflexivity.
Qed.

Lemma month_links_are_adjacent_witness :
  last (build_month_keyboard 2025 12 (Some (mk_ymd 2025 12 15)) (mk_ymd 2025 12 3)) [] =
    [PrevMonthButton 2025 11; CancelButton; NextMonthButton 2026 1].
Proof.
  destruct (month_links_are_adjacent 2025 12 (mk_ymd 2025 12 3) 2025 12 15) as [H _].
  - lia.
  - lia.
  - exact H.
Defined.

(** The two models of date arithmetic agree: one step of [next_day] from
    a date of the calendar adds one to the day count. *)
Lemma toordinal_next_day y m d :
  1 <= m <= 12 -> 1 <= d <= days_in_month y m ->
  toordinal (next_day (mk_ymd y m d)) = toordinal (mk_ymd y m d) + 1.
Proof.
  intros Hm Hd. unfold next_day, toordinal. cbn [ymd_year ymd_month ymd_day].
  destruct (Z.ltb_spec d (days_in_month y m)) as [Hlt|Hge];
    cbn [ymd_year ymd_month ymd_day]; [lia|].
  destruct (Z.ltb_spec m 12) as [Hlt|Hge12]; cbn [ymd_year ymd_month ymd_day].
  - unfold days_before_month.
    replace (Z.to_nat (m + 1 - 1)) with (S (Z.to_nat (m - 1))) by lia.
    cbn [days_in_first_months].
    replace (Z.of_nat (S (Z.to_nat (m - 1)))) with m by lia. lia.
  - assert (m = 12) by lia. subst m.
    assert (Ed : d = 31) by (unfold days_in_month in *; simpl in *; lia). subst d.
    assert (E12 : days_before_month y 12 = 334 + (if is_leap y then 1 else 0)).
    { unfold days_before_month. simpl. unfold days_in_month. simpl.
      destruct (is_leap y); lia. }
    rewrite E12. change (days_before_month (y + 1) 1) with 0.
    unfold days_before_year, is_leap.
    destruct (Z.eqb_spec (y mod 4) 0), (Z.eqb_spec (y mod 100) 0),
             (Z.eqb_spec (y mod 400) 0); cbn [andb orb negb];
      Z.div_mod_to_equations; lia.
Qed.
